(** * The idea-intake pipeline of idea-bot

    A shallow embedding of [internal/domain/service] (the rate limiter, the
    Claude client wrappers and [IdeaService.CreateAndEnrich]) together with
    the parts of [internal/storage] and [internal/domain/model] they use.

    Go code is sequential here: one call of [CreateAndEnrich] runs from start
    to end against a world made of the SQLite table, the heap object of the
    rate limiter and three collaborators whose answers the program cannot
    predict (the clock, the database handle, the Anthropic client).  Every
    theorem quantifies over the whole world, hence over every behaviour of
    these collaborators. *)

From stdpp Require Import base numbers option list gmap strings pretty sorting.
From Stdlib Require Import ZArith Lia.

Local Open Scope string_scope.
Local Open Scope Z_scope.

(** ** Package [golang.org/x/time/rate] (external dependency)

    The token bucket behind [rate.Limiter], in exact integer arithmetic.
    The library keeps the number of tokens as a [float64]; here the level of
    a bucket is counted in nanoseconds of credit, one token being worth
    [interval] nanoseconds, so that refilling adds the elapsed time and
    nothing is rounded. *)
Module rate.

(** [time.Duration]: nanoseconds. *)
Definition Duration := Z.
Definition Hour : Duration := 3600000000000.

(** [rate.Limit]: [Inf], or one token every [interval] nanoseconds. *)
Inductive Limit :=
| Inf
| PerInterval (interval : Duration).

(** [rate.Every]: a non-positive interval means no limit at all. *)
Definition Every (interval : Duration) : Limit :=
  if interval <=? 0 then Inf else PerInterval interval.

Record Limiter := mkLimiter {
  limit : Limit;
  burst : Z;
  credit : Z;      (* tokens, in nanoseconds of credit *)
  last : Z         (* time of the last update of [credit] *)
}.

(** Capacity of the bucket and worth of [n] tokens, in credit. *)
Definition worth (l : Limit) (n : Z) : Z :=
  match l with
  | Inf => 0
  | PerInterval iv => n * iv
  end.

(** [rate.NewLimiter]: the bucket starts full. *)
Definition NewLimiter (r : Limit) (b : Z) : Limiter :=
  {| limit := r; burst := b; credit := worth r b; last := 0 |}.

(** [Limiter.advance]: the level the bucket has at time [t]. *)
Definition advance (t : Z) (lim : Limiter) : Z :=
  let last := if t <? last lim then t else last lim in
  let elapsed := t - last in
  Z.min (worth (limit lim) (burst lim)) (credit lim + elapsed).

(** [Limiter.AllowN], that is [reserveN t n 0]: the request is granted
    when it does not exceed the burst and the bucket holds [n] tokens at
    time [t]; only a granted request changes the limiter. *)
Definition AllowN (t : Z) (n : Z) (lim : Limiter) : bool * Limiter :=
  match limit lim with
  | Inf => (true, lim)
  | PerInterval iv =>
      let tokens := advance t lim - n * iv in
      if (n <=? burst lim) && (0 <=? tokens)
      then (true, {| limit := limit lim; burst := burst lim;
                     credit := tokens; last := t |})
      else (false, lim)
  end.

(** A token is available at time [t]. *)
Definition available (t : Z) (lim : Limiter) : bool :=
  match limit lim with
  | Inf => true
  | PerInterval iv => (1 <=? burst lim) && (iv <=? advance t lim)
  end.

(** The number of whole tokens the bucket holds at time [t]. *)
Definition tokensAt (t : Z) (lim : Limiter) : option Z :=
  match limit lim with
  | Inf => None
  | PerInterval iv => Some (advance t lim / iv)
  end.

End rate.

(** ** Package [internal/domain/model] *)
Module model.

Definition IdeaStatus := string.
Definition StatusNew : IdeaStatus := "new".
Definition StatusReviewed : IdeaStatus := "reviewed".
Definition StatusAccepted : IdeaStatus := "accepted".
Definition StatusInProgress : IdeaStatus := "in_progress".

Record EnrichedIdea := mkEnrichedIdea {
  e_Title : string;
  e_Summary : string;
  e_DetailedDesc : string;
  e_Category : string;
  e_Priority : string;
  e_Complexity : string;
  e_AffectedComponents : list string;
  e_UserStory : string;
  e_AcceptanceCriteria : list string;
  e_TechnicalNotes : string;
  e_RelatedFeatures : list string;
  e_PotentialRisks : list string
}.

(** The zero value, [EnrichedIdea{}]. *)
Definition EnrichedIdea_zero : EnrichedIdea :=
  mkEnrichedIdea EmptyString EmptyString EmptyString EmptyString
    EmptyString EmptyString [] EmptyString [] EmptyString [] [].

Record Idea := mkIdea {
  ID : Z;
  TelegramMessageID : Z;
  TelegramChatID : Z;
  TelegramUserID : Z;
  TelegramUsername : string;
  TelegramFirstName : string;
  RawText : string;
  EnrichedJSON : string;
  Enriched : option EnrichedIdea;     (* a pointer; nil is None *)
  Title : string;
  Category : string;
  Priority : string;
  Complexity : string;
  AffectedComponents : list string;
  Status : IdeaStatus;
  AdminNotes : string;
  CreatedAt : Z;
  UpdatedAt : Z
}.

Record CreateIdeaInput := mkCreateIdeaInput {
  in_TelegramMessageID : Z;
  in_TelegramChatID : Z;
  in_TelegramUserID : Z;
  in_TelegramUsername : string;
  in_TelegramFirstName : string;
  in_RawText : string
}.

Record IdeaSummary := mkIdeaSummary {
  s_ID : Z;
  s_Title : string;
  s_RawText : string
}.

End model.

Import model.

(** ** Go values shared by the packages *)

(** The [error] values the pipeline builds or receives.  [errorString] is
    [errors.New] and [fmt.Errorf] without [%w], and also stands for the
    errors of the collaborators; [wrapError] is [fmt.Errorf] with [%w],
    keeping the formatted text and the wrapped error. *)
Inductive error :=
| errorString (s : string)
| wrapError (msg : string) (err : error)
| DuplicateError (SimilarID : Z) (Reason : string).

(** The [Error()] method; for [DuplicateError] it is
    [fmt.Sprintf("duplicate of idea #%d: %s", e.SimilarID, e.Reason)]. *)
Definition Error (e : error) : string :=
  match e with
  | errorString s => s
  | wrapError msg _ => msg
  | DuplicateError id reason =>
      "duplicate of idea #" +:+ pretty id +:+ ": " +:+ reason
  end.

(** [errors.As(err, &dupErr)] with [dupErr : *DuplicateError]. *)
Fixpoint errors_As_DuplicateError (e : error) : option (Z * string) :=
  match e with
  | errorString _ => None
  | wrapError _ inner => errors_As_DuplicateError inner
  | DuplicateError id reason => Some (id, reason)
  end.

(** A Go function result that panicked has no value. *)
Inductive Res (A : Type) :=
| Val (a : A)
| Panic (msg : string).
Arguments Val {A} a.
Arguments Panic {A} msg.

(** ** The Anthropic client (external collaborator) *)

Record ContentBlock := mkBlock {
  Type_ : string;
  Text : string
}.

Record Message := mkMessage {
  Content : list ContentBlock
}.

Record MessageNewParams := mkParams {
  Model : string;
  MaxTokens : Z;
  System : list string;
  Messages : list string       (* the text of each user message *)
}.

(** ** The [ideas] table (schema of [internal/storage]) *)

Record Row := mkRow {
  c_id : Z;
  c_telegram_message_id : Z;
  c_telegram_chat_id : Z;
  c_telegram_user_id : Z;
  c_telegram_username : string;
  c_telegram_first_name : string;
  c_raw_text : string;
  c_enriched_json : string;
  c_title : string;
  c_category : string;
  c_priority : string;
  c_complexity : string;
  c_affected_repos : string;
  c_status : string;
  c_admin_notes : string;
  c_created_at : Z;
  c_updated_at : Z
}.

(** The table, the row inserted last in front, and the AUTOINCREMENT
    counter of SQLite (the largest id ever handed out). *)
Record DB := mkDB {
  ideas : list Row;
  ideas_seq : Z
}.

(** ** Package [internal/domain/service]: data *)

Record DuplicateResult := mkDuplicateResult {
  IsDuplicate : bool;
  SimilarIdeaID : Z;
  Reason_ : string
}.

(** The map holds the limiters themselves: a limiter that [Allow] changes is
    written back under its key, which is what mutating through the pointer
    stored in the Go map does. *)
Record RateLimiter := mkRateLimiter {
  userLimits : gmap Z rate.Limiter;
  globalLimit : rate.Limiter;
  perUser : Z
}.

Record ClaudeService := mkClaudeService {
  cs_model : string;
  systemPrompt : string
}.

(** ** The world a call runs in *)

(** What the program tells or asks its collaborators, in order. *)
Inductive SqlCall :=
| Exec_InsertIdea (input : CreateIdeaInput)
| Result_LastInsertId
| QueryRow_Scan_IdeaByID (id : Z)
| Query_Summaries
| Rows_Scan
| Rows_Next
| Exec_UpdateEnriched (id : Z) (enriched_json title category priority
                       complexity affected_repos : string) (updated_at : Z).

Inductive Event :=
| EvLog (line : string)
| EvSql (call : SqlCall)
| EvApi (params : MessageNewParams).

(** The answers of the collaborators.  [clock n] is the [n]-th reading of
    the clock; [sql_fault n] is the error of the [n]-th call on the database
    handle, if that call fails; [api_reply n p] is the answer of the [n]-th
    [Messages.New], sent with parameters [p] (a cancelled or expired
    context is one of the ways it fails). *)
Record Env := mkEnv {
  clock : nat -> Z;
  sql_fault : nat -> option error;
  api_reply : nat -> MessageNewParams -> Message + error
}.

Record World := mkWorld {
  env : Env;
  ticks : nat;                 (* readings of the clock so far *)
  sql_calls : nat;             (* calls on the database handle so far *)
  api_calls : nat;             (* calls of [Messages.New] so far *)
  db : DB;
  rateLimiter : RateLimiter;   (* the heap object of [IdeaService] *)
  trace : list Event           (* newest event first *)
}.

(** ** A state monad with panics *)

Definition M (A : Type) : Type := World -> Res A * World.

Definition ret {A} (a : A) : M A := fun w => (Val a, w).

Definition bind {A B} (m : M A) (k : A -> M B) : M B :=
  fun w =>
    match m w with
    | (Val a, w') => k a w'
    | (Panic msg, w') => (Panic msg, w')
    end.

Definition panic {A} (msg : string) : M A := fun w => (Panic msg, w).

Declare Scope go_scope.
Delimit Scope go_scope with go.
Notation "x <- m ;; k" := (bind m (fun x => k))
  (at level 100, m at next level, right associativity) : go_scope.
Notation "m ;;; k" := (bind m (fun _ => k))
  (at level 100, right associativity) : go_scope.
Local Open Scope go_scope.

Definition emit (e : Event) (w : World) : World :=
  {| env := env w; ticks := ticks w; sql_calls := sql_calls w;
     api_calls := api_calls w; db := db w; rateLimiter := rateLimiter w;
     trace := e :: trace w |}.

Definition set_db (d : DB) (w : World) : World :=
  {| env := env w; ticks := ticks w; sql_calls := sql_calls w;
     api_calls := api_calls w; db := d; rateLimiter := rateLimiter w;
     trace := trace w |}.

Definition set_rateLimiter (rl : RateLimiter) (w : World) : World :=
  {| env := env w; ticks := ticks w; sql_calls := sql_calls w;
     api_calls := api_calls w; db := db w; rateLimiter := rl;
     trace := trace w |}.

(** [log.Printf], the line already formatted. *)
Definition log_Printf (line : string) : M unit :=
  fun w => (Val tt, emit (EvLog line) w).

(** [time.Now()], in nanoseconds. *)
Definition time_Now : M Z :=
  fun w =>
    (Val (clock (env w) (ticks w)),
     {| env := env w; ticks := S (ticks w); sql_calls := sql_calls w;
        api_calls := api_calls w; db := db w; rateLimiter := rateLimiter w;
        trace := trace w |}).

(** One call on the database handle: it is recorded, and the collaborator
    says whether it fails. *)
Definition sql_call (c : SqlCall) : M (option error) :=
  fun w =>
    (Val (sql_fault (env w) (sql_calls w)),
     {| env := env w; ticks := ticks w; sql_calls := S (sql_calls w);
        api_calls := api_calls w; db := db w; rateLimiter := rateLimiter w;
        trace := EvSql c :: trace w |}).

(** [s.client.Messages.New(ctx, params)]. *)
Definition client_Messages_New (params : MessageNewParams)
  : M (Message + error) :=
  fun w =>
    (Val (api_reply (env w) (api_calls w) params),
     {| env := env w; ticks := ticks w; sql_calls := sql_calls w;
        api_calls := S (api_calls w); db := db w;
        rateLimiter := rateLimiter w; trace := EvApi params :: trace w |}).

Definition get_db : M DB := fun w => (Val (db w), w).
Definition put_db (d : DB) : M unit := fun w => (Val tt, set_db d w).
Definition get_rateLimiter : M RateLimiter :=
  fun w => (Val (rateLimiter w), w).
Definition put_rateLimiter (rl : RateLimiter) : M unit :=
  fun w => (Val tt, set_rateLimiter rl w).

(** ** [RateLimiter] (idea.go) *)

Definition divide_by_zero : string :=
  "runtime error: integer divide by zero".

(** [rate.Every(time.Hour / time.Duration(n))]; the division is Go's integer
    division, which truncates and panics on zero (the caller checks). *)
Definition hourly (n : Z) : rate.Limit := rate.Every (rate.Hour ÷ n).

Definition NewRateLimiter (perUser global : Z) : Res RateLimiter :=
  if global =? 0 then Panic divide_by_zero
  else Val {| userLimits := ∅;
              globalLimit := rate.NewLimiter (hourly global) global;
              perUser := perUser |}.

(** [rate.Limiter.Allow], which is [AllowN(time.Now(), 1)]; the changed
    limiter is returned to be stored where the pointer points. *)
Definition Limiter_Allow (lim : rate.Limiter) : M (bool * rate.Limiter) :=
  now <- time_Now ;;
  ret (rate.AllowN now 1 lim).

Definition set_globalLimit (g : rate.Limiter) (rl : RateLimiter) :=
  {| userLimits := userLimits rl; globalLimit := g; perUser := perUser rl |}.

Definition set_userLimit (userID : Z) (l : rate.Limiter) (rl : RateLimiter) :=
  {| userLimits := <[userID := l]> (userLimits rl);
     globalLimit := globalLimit rl; perUser := perUser rl |}.

Definition RateLimiter_Allow (userID : Z) : M bool :=
  (* Check global limit first *)
  rl <- get_rateLimiter ;;
  g <- Limiter_Allow (globalLimit rl) ;;
  put_rateLimiter (set_globalLimit g.2 rl) ;;;
  if negb g.1 then ret false
  else
    (* Check per-user limit *)
    rl <- get_rateLimiter ;;
    limiter <-
      match userLimits rl !! userID with
      | Some limiter => ret limiter
      | None =>
          (* Create new limiter for this user *)
          if perUser rl =? 0 then panic divide_by_zero
          else
            let limiter := rate.NewLimiter (hourly (perUser rl)) (perUser rl) in
            put_rateLimiter (set_userLimit userID limiter rl) ;;;
            ret limiter
      end ;;
    u <- Limiter_Allow limiter ;;
    rl <- get_rateLimiter ;;
    put_rateLimiter (set_userLimit userID u.2 rl) ;;;
    ret u.1.

(** [Cleanup]: all per-user limiters are dropped. *)
Definition RateLimiter_Cleanup : M unit :=
  rl <- get_rateLimiter ;;
  put_rateLimiter {| userLimits := ∅; globalLimit := globalLimit rl;
                     perUser := perUser rl |}.

(** ** Libraries taken as they are

    [encoding/json] is a parameter of the development.  [Unmarshal] fills the
    value it is given and may fail half-way, so it maps the text and the
    value before to the value after and the error; [Marshal] yields the text
    or an error. *)
Class JSON := {
  Unmarshal_EnrichedIdea :
    string -> EnrichedIdea -> EnrichedIdea * option error;
  Unmarshal_DuplicateResult :
    string -> DuplicateResult -> DuplicateResult * option error;
  Unmarshal_strings : string -> list string -> list string * option error;
  Marshal_EnrichedIdea : EnrichedIdea -> string + error;
  Marshal_strings : list string -> string + error
}.

(** The long string constants of claude.go: [responseSchema], and the
    instruction text of [CheckDuplicate] applied by [fmt.Sprintf] to its two
    arguments, the new idea and the list of existing ideas. *)
Class Prompts := {
  responseSchema : string;
  duplicatePrompt : string -> string -> string
}.

Definition nl : string := String (Ascii.ascii_of_nat 10) EmptyString.
Definition dquote : string := String (Ascii.ascii_of_nat 34) EmptyString.

Definition is_empty (s : string) : bool :=
  match s with
  | EmptyString => true
  | String _ _ => false
  end.

(** [strings.Contains]. *)
Fixpoint strings_Contains (s substr : string) : bool :=
  String.prefix substr s ||
  match s with
  | EmptyString => false
  | String _ s' => strings_Contains s' substr
  end.

(** [s[:min(n, len(s))]]. *)
Definition prefix_upto (n : nat) (s : string) : string :=
  String.substring 0 (Nat.min n (String.length s)) s.

Section Pipeline.
Context {json : JSON} {prompts : Prompts}.

(** ** Package [internal/storage]: [IdeaRepository] *)

Definition sql_ErrNoRows : error := errorString "sql: no rows in result set".

(** [Idea.ParseEnriched]. *)
Definition ParseEnriched (i : Idea) : Idea * option error :=
  if is_empty (EnrichedJSON i) then (i, None)
  else
    let r := Unmarshal_EnrichedIdea (EnrichedJSON i) EnrichedIdea_zero in
    (mkIdea (ID i) (TelegramMessageID i) (TelegramChatID i)
       (TelegramUserID i) (TelegramUsername i) (TelegramFirstName i)
       (RawText i) (EnrichedJSON i) (Some r.1) (Title i) (Category i)
       (Priority i) (Complexity i) (AffectedComponents i) (Status i)
       (AdminNotes i) (CreatedAt i) (UpdatedAt i),
     r.2).

(** What [Scan] and the two decoding steps of [GetByID] make of a row. *)
Definition idea_of_row (r : Row) : Idea :=
  let affected :=
    if is_empty (c_affected_repos r) then []
    else (Unmarshal_strings (c_affected_repos r) []).1 in
  (ParseEnriched
     (mkIdea (c_id r) (c_telegram_message_id r) (c_telegram_chat_id r)
        (c_telegram_user_id r) (c_telegram_username r)
        (c_telegram_first_name r) (c_raw_text r) (c_enriched_json r) None
        (c_title r) (c_category r) (c_priority r) (c_complexity r) affected
        (c_status r) (c_admin_notes r) (c_created_at r) (c_updated_at r))).1.

(** [SELECT ... FROM ideas WHERE id = ?]. *)
Definition select_by_id (id : Z) (d : DB) : option Row :=
  find (fun r => c_id r =? id) (ideas d).

Definition IdeaRepository_GetByID (id : Z) : M (option Idea * option error) :=
  err <- sql_call (QueryRow_Scan_IdeaByID id) ;;
  match err with
  | Some e => ret (None, Some e)
  | None =>
      d <- get_db ;;
      match select_by_id id d with
      | None => ret (None, Some sql_ErrNoRows)
      | Some r => ret (Some (idea_of_row r), None)
      end
  end.

(** [INSERT INTO ideas (...) VALUES (...)]: the id is one more than every id
    of the table and every id handed out before; the columns that are not
    listed take their defaults. *)
Definition next_id (d : DB) : Z :=
  1 + fold_right Z.max (ideas_seq d) (map c_id (ideas d)).

Definition insert_idea (input : CreateIdeaInput) (now : Z) (d : DB) : Z * DB :=
  let id := next_id d in
  (id,
   {| ideas :=
        mkRow id (in_TelegramMessageID input) (in_TelegramChatID input)
          (in_TelegramUserID input) (in_TelegramUsername input)
          (in_TelegramFirstName input) (in_RawText input)
          EmptyString EmptyString EmptyString EmptyString EmptyString
          EmptyString StatusNew EmptyString now now
        :: ideas d;
      ideas_seq := id |}).

Definition IdeaRepository_Create (input : CreateIdeaInput)
  : M (option Idea * option error) :=
  err <- sql_call (Exec_InsertIdea input) ;;
  match err with
  | Some e => ret (None, Some e)
  | None =>
      now <- time_Now ;;                       (* CURRENT_TIMESTAMP *)
      d <- get_db ;;
      let r := insert_idea input now d in
      put_db r.2 ;;;
      err <- sql_call Result_LastInsertId ;;
      match err with
      | Some e => ret (None, Some e)
      | None => IdeaRepository_GetByID r.1
      end
  end.

(** [UPDATE ideas SET ... WHERE id = ?]. *)
Definition update_enriched (id : Z) (enriched_json title category priority
    complexity affected_repos : string) (now : Z) (d : DB) : DB :=
  {| ideas :=
       map (fun r =>
              if c_id r =? id
              then mkRow (c_id r) (c_telegram_message_id r)
                     (c_telegram_chat_id r) (c_telegram_user_id r)
                     (c_telegram_username r) (c_telegram_first_name r)
                     (c_raw_text r) enriched_json title category priority
                     complexity affected_repos (c_status r)
                     (c_admin_notes r) (c_created_at r) now
              else r)
           (ideas d);
     ideas_seq := ideas_seq d |}.

Definition IdeaRepository_UpdateEnriched (id : Z) (enriched : EnrichedIdea)
  : M (option error) :=
  match Marshal_EnrichedIdea enriched with
  | inr e => ret (Some e)
  | inl enrichedJSON =>
      match Marshal_strings (e_AffectedComponents enriched) with
      | inr e => ret (Some e)
      | inl affectedReposJSON =>
          now <- time_Now ;;
          err <- sql_call
                   (Exec_UpdateEnriched id enrichedJSON (e_Title enriched)
                      (e_Category enriched) (e_Priority enriched)
                      (e_Complexity enriched) affectedReposJSON now) ;;
          match err with
          | Some e => ret (Some e)
          | None =>
              d <- get_db ;;
              put_db (update_enriched id enrichedJSON (e_Title enriched)
                        (e_Category enriched) (e_Priority enriched)
                        (e_Complexity enriched) affectedReposJSON now d) ;;;
              ret None
          end
      end
  end.

(** [SELECT id, title, raw_text FROM ideas WHERE status NOT IN ('rejected',
    'implemented') ORDER BY created_at DESC LIMIT 100]. *)
Definition is_active (r : Row) : bool :=
  negb (String.eqb (c_status r) "rejected"
        || String.eqb (c_status r) "implemented").

(** [ORDER BY created_at DESC]: the rows by decreasing [created_at], by
    insertion.  SQL leaves open the order of rows that have the same
    [created_at]; here they keep the order they have in the table. *)
Fixpoint insert_newest_first (r : Row) (sorted : list Row) : list Row :=
  match sorted with
  | [] => [r]
  | r' :: rest =>
      if c_created_at r' <=? c_created_at r then r :: r' :: rest
      else r' :: insert_newest_first r rest
  end.

Definition order_by_created_at_desc (rows : list Row) : list Row :=
  fold_right insert_newest_first [] rows.

Definition select_summaries (d : DB) : list Row :=
  take 100
    (order_by_created_at_desc (filter (fun r => is_active r = true) (ideas d))).

(** The [for rows.Next()] loop.  [rows.Next()] is a call on the handle; when
    it fails the loop ends and [rows.Err()] reports its error.  A failing
    [rows.Scan] returns at once with no summaries. *)
Fixpoint scan_summaries (rows : list Row) (summaries : list IdeaSummary)
  : M (list IdeaSummary * option error) :=
  err <- sql_call Rows_Next ;;
  match err with
  | Some e => ret (summaries, Some e)
  | None =>
      match rows with
      | [] => ret (summaries, None)
      | r :: rows' =>
          err <- sql_call Rows_Scan ;;
          match err with
          | Some e => ret ([], Some e)
          | None =>
              scan_summaries rows'
                (summaries ++ [mkIdeaSummary (c_id r) (c_title r) (c_raw_text r)])
          end
      end
  end.

Definition IdeaRepository_ListSummaries
  : M (list IdeaSummary * option error) :=
  err <- sql_call Query_Summaries ;;
  match err with
  | Some e => ret ([], Some e)
  | None =>
      d <- get_db ;;
      scan_summaries (select_summaries d) []
  end.

(** ** [ClaudeService] (claude.go) *)

(** [fmt.Errorf(prefix + "%w" + suffix, err)]. *)
Definition fmt_Errorf_w (prefix : string) (err : error) (suffix : string)
  : error :=
  wrapError (prefix +:+ Error err +:+ suffix) err.

(** The loop over [message.Content]: the text of the first block of type
    [text], or the empty string when there is none. *)
Fixpoint responseText (content : list ContentBlock) : string :=
  match content with
  | [] => EmptyString
  | block :: rest =>
      if String.eqb (Type_ block) "text" then Text block
      else responseText rest
  end.

Definition enrichUserPrompt (username rawIdea : string) : string :=
  "User @" +:+ username +:+ " submitted an idea:" +:+ nl +:+ nl +:+
  dquote +:+ rawIdea +:+ dquote +:+ nl +:+ nl +:+
  "Analyze this idea and return a structured JSON according to the schema."
  +:+ nl +:+
  "Do not use markdown formatting, return only clean JSON.".

Definition enrichParams (s : ClaudeService) (rawIdea username : string)
  : MessageNewParams :=
  {| Model := cs_model s;
     MaxTokens := 2000;
     System := [systemPrompt s +:+ nl +:+ nl +:+ "Expected JSON schema:"
                +:+ nl +:+ responseSchema];
     Messages := [enrichUserPrompt username rawIdea] |}.

Definition ClaudeService_EnrichIdea (s : ClaudeService)
    (rawIdea username : string) : M (option EnrichedIdea * option error) :=
  r <- client_Messages_New (enrichParams s rawIdea username) ;;
  match r with
  | inr err => ret (None, Some (fmt_Errorf_w "claude API error: " err EmptyString))
  | inl message =>
      (* Extract text from response *)
      let responseText := responseText (Content message) in
      if is_empty responseText
      then ret (None, Some (errorString "empty response from Claude"))
      else
        (* Parse JSON response *)
        let enriched := Unmarshal_EnrichedIdea responseText EnrichedIdea_zero in
        match enriched.2 with
        | Some err =>
            ret (None,
                 Some (fmt_Errorf_w "failed to parse Claude response as JSON: "
                         err (nl +:+ "Response: " +:+ responseText)))
        | None => ret (Some enriched.1, None)
        end
  end.

(** [DuplicateResult{IsDuplicate: false}]. *)
Definition not_duplicate : DuplicateResult :=
  mkDuplicateResult false 0 EmptyString.

(** One line of the list of existing ideas. *)
Definition ideaLine (idea : IdeaSummary) : string :=
  let title :=
    if is_empty (s_Title idea)
    then
      if (100 <? String.length (s_RawText idea))%nat
      then String.substring 0 100 (s_RawText idea) +:+ "..."
      else s_RawText idea
    else s_Title idea in
  "- ID " +:+ pretty (s_ID idea) +:+ ": " +:+ title +:+ nl.

Definition ideasList (existingIdeas : list IdeaSummary) : string :=
  fold_left (fun acc idea => acc +:+ ideaLine idea) existingIdeas EmptyString.

Definition duplicateParams (s : ClaudeService) (newIdea : string)
    (existingIdeas : list IdeaSummary) : MessageNewParams :=
  {| Model := cs_model s;
     MaxTokens := 500;
     System := [];
     Messages := [duplicatePrompt newIdea (ideasList existingIdeas)] |}.

Definition ClaudeService_CheckDuplicate (s : ClaudeService)
    (newIdea : string) (existingIdeas : list IdeaSummary)
  : M (option DuplicateResult * option error) :=
  match existingIdeas with
  | [] => ret (Some not_duplicate, None)
  | _ :: _ =>
      r <- client_Messages_New (duplicateParams s newIdea existingIdeas) ;;
      match r with
      | inr err =>
          ret (None, Some (fmt_Errorf_w "claude API error: " err EmptyString))
      | inl message =>
          let responseText := responseText (Content message) in
          if is_empty responseText then ret (Some not_duplicate, None)
          else
            let result := Unmarshal_DuplicateResult responseText not_duplicate in
            match result.2 with
            | Some _ =>
                (* If parsing fails, assume not a duplicate *)
                ret (Some not_duplicate, None)
            | None => ret (Some result.1, None)
            end
      end
  end.

(** ** [IdeaService] (idea.go) *)

Definition nil_dereference : string :=
  "runtime error: invalid memory address or nil pointer dereference".

(** The three results of [CreateAndEnrich]. *)
Definition Outcome : Type := option Idea * option EnrichedIdea * option error.

Definition log_called (input : CreateIdeaInput) : string :=
  "CreateAndEnrich called for user " +:+ pretty (in_TelegramUserID input)
  +:+ ": " +:+ prefix_upto 50 (in_RawText input).
Definition log_rate_limit (input : CreateIdeaInput) : string :=
  "Rate limit exceeded for user " +:+ pretty (in_TelegramUserID input).
Definition log_checking : string := "Checking for duplicate ideas...".
Definition log_fetch_failed (err : error) : string :=
  "Warning: failed to get existing ideas for duplicate check: " +:+ Error err.
Definition log_check_failed (err : error) : string :=
  "Warning: duplicate check failed: " +:+ Error err.
Definition log_duplicate (r : DuplicateResult) : string :=
  "Duplicate found: idea #" +:+ pretty (SimilarIdeaID r) +:+ " - "
  +:+ Reason_ r.
Definition log_no_duplicates : string := "No duplicates found, creating idea...".
Definition log_create_failed (err : error) : string :=
  "Failed to create idea: " +:+ Error err.
Definition log_created (id : Z) : string :=
  "Idea created with ID " +:+ pretty id.
Definition log_calling (id : Z) : string :=
  "Calling Claude API for idea " +:+ pretty id +:+ "...".
Definition log_enrich_failed (id : Z) (err : error) : string :=
  "ERROR: failed to enrich idea " +:+ pretty id +:+ ": " +:+ Error err.
Definition log_enriched (id : Z) : string :=
  "Claude API returned successfully for idea " +:+ pretty id.
Definition log_save_failed (id : Z) (err : error) : string :=
  "Warning: failed to save enriched data for idea " +:+ pretty id +:+ ": "
  +:+ Error err.

(** [CreateAndEnrich] from the line that logs "No duplicates found" to the
    end: every path of the duplicate check that does not return flows here. *)
Definition CreateAndEnrich_create (s : ClaudeService) (input : CreateIdeaInput)
  : M Outcome :=
  log_Printf log_no_duplicates ;;;
  (* Create the idea *)
  created <- IdeaRepository_Create input ;;
  match created.2 with
  | Some err =>
      log_Printf (log_create_failed err) ;;;
      ret (None, None, Some (fmt_Errorf_w "failed to create idea: " err EmptyString))
  | None =>
      match created.1 with
      | None => panic nil_dereference          (* idea.ID on a nil idea *)
      | Some idea =>
          log_Printf (log_created (ID idea)) ;;;
          (* Enrich with Claude *)
          let username :=
            if is_empty (in_TelegramUsername input)
            then in_TelegramFirstName input
            else in_TelegramUsername input in
          log_Printf (log_calling (ID idea)) ;;;
          enriched <- ClaudeService_EnrichIdea s (in_RawText input) username ;;
          match enriched.2 with
          | Some err =>
              log_Printf (log_enrich_failed (ID idea) err) ;;;
              (* Return the idea without enrichment *)
              ret (Some idea, None, None)
          | None =>
              log_Printf (log_enriched (ID idea)) ;;;
              match enriched.1 with
              | None => panic nil_dereference  (* enriched.AffectedComponents *)
              | Some e =>
                  (* Update the idea with enriched data *)
                  err <- IdeaRepository_UpdateEnriched (ID idea) e ;;
                  match err with
                  | Some err => log_Printf (log_save_failed (ID idea) err)
                  | None => ret tt
                  end ;;;
                  (* Refresh the idea from DB *)
                  refreshed <- IdeaRepository_GetByID (ID idea) ;;
                  ret (refreshed.1, Some e, None)
              end
          end
      end
  end.

Definition CreateAndEnrich (s : ClaudeService) (input : CreateIdeaInput)
  : M Outcome :=
  log_Printf (log_called input) ;;;
  (* Check rate limit *)
  allowed <- RateLimiter_Allow (in_TelegramUserID input) ;;
  if negb allowed then
    log_Printf (log_rate_limit input) ;;;
    ret (None, None, Some (errorString "rate limit exceeded"))
  else
    (* Check for duplicates first *)
    log_Printf log_checking ;;;
    existing <- IdeaRepository_ListSummaries ;;
    match existing.2 with
    | Some err =>
        log_Printf (log_fetch_failed err) ;;;
        CreateAndEnrich_create s input
    | None =>
        if (0 <? length existing.1)%nat then
          dupResult <- ClaudeService_CheckDuplicate s (in_RawText input)
                         existing.1 ;;
          match dupResult.2 with
          | Some err =>
              log_Printf (log_check_failed err) ;;;
              CreateAndEnrich_create s input
          | None =>
              match dupResult.1 with
              | Some r =>
                  if IsDuplicate r then
                    log_Printf (log_duplicate r) ;;;
                    ret (None, None,
                         Some (DuplicateError (SimilarIdeaID r) (Reason_ r)))
                  else CreateAndEnrich_create s input
              | None => CreateAndEnrich_create s input
              end
          end
        else CreateAndEnrich_create s input
    end.

End Pipeline.

(** ** The caller (package [telegram], [handleIdeaCommand])

    How the bot reads the three results: an error that is a
    [DuplicateError], an error whose text contains "rate limit", any other
    error, and the two successes.  On success it formats [idea.ID] first,
    which panics on a nil idea. *)
Inductive Reply :=
| DuplicateOf (id : Z) (reason : string)
| RateLimited
| FatalError
| SavedEnriched
| SavedWithoutEnrichment.

Definition classify (o : Outcome) : Res Reply :=
  match o.2 with
  | Some err =>
      match errors_As_DuplicateError err with
      | Some (id, reason) => Val (DuplicateOf id reason)
      | None =>
          if strings_Contains (Error err) "rate limit" then Val RateLimited
          else Val FatalError
      end
  | None =>
      match o.1.1 with
      | None => Panic nil_dereference
      | Some _ =>
          match o.1.2 with
          | Some _ => Val SavedEnriched
          | None => Val SavedWithoutEnrichment
          end
      end
  end.

(** ** Text helpers (claude.go, package [telegram], model/idea.go) *)

(** [strings.ReplaceAll(s, old, new)] for a pattern [old] of one byte,
    which is what every call site below passes. *)
Fixpoint replace_byte (old : Ascii.ascii) (new : string) (s : string)
  : string :=
  match s with
  | EmptyString => EmptyString
  | String c s' =>
      if Ascii.eqb c old then new +:+ replace_byte old new s'
      else String c (replace_byte old new s')
  end.

Definition backslash : Ascii.ascii := Ascii.ascii_of_nat 92.

(** The loop shared by the two escaping functions:
    [result = strings.ReplaceAll(result, char, "\\"+char)] for each
    [char] of [specialChars], in order. *)
Definition escape_each (specialChars : list Ascii.ascii) (text : string)
  : string :=
  fold_left
    (fun result char =>
       replace_byte char (String backslash (String char EmptyString)) result)
    specialChars text.

(** [specialChars] of [escapeMarkdownV2] (package [telegram]); the list of
    [escapeMarkdown] (claude.go) is the same with the backslash in front. *)
Definition specialChars_V2 : list Ascii.ascii :=
  String.list_ascii_of_string "_*[]()~`>#+-=|{}.!".

Definition escapeMarkdownV2 (text : string) : string :=
  escape_each specialChars_V2 text.

Definition escapeMarkdown (text : string) : string :=
  escape_each (backslash :: specialChars_V2) text.

(** [stripMarkdown] (package [telegram]). *)
Definition stripMarkdown (text : string) : string :=
  let result := replace_byte backslash EmptyString text in
  let result := replace_byte (Ascii.ascii_of_nat 42) EmptyString result in
  let result := replace_byte (Ascii.ascii_of_nat 95) EmptyString result in
  replace_byte (Ascii.ascii_of_nat 96) EmptyString result.

(** [Idea.AffectedComponentsStr]: the loop keeps the index and the text
    built so far. *)
Definition AffectedComponentsStr (i : Idea) : string :=
  match AffectedComponents i with
  | [] => EmptyString
  | components =>
      (fold_left
         (fun (st : nat * string) r =>
            (S st.1,
             (if (0 <? st.1)%nat then st.2 +:+ ", " else st.2) +:+ r))
         components (0%nat, EmptyString)).2
  end.

(** Escaping in one pass: a backslash in front of every byte of [special],
    and what is left of a text without the bytes of [removed]. *)
Fixpoint escape_once (special : list Ascii.ascii) (s : string) : string :=
  match s with
  | EmptyString => EmptyString
  | String c s' =>
      if existsb (Ascii.eqb c) special
      then String backslash (String c (escape_once special s'))
      else String c (escape_once special s')
  end.

Fixpoint without (removed : list Ascii.ascii) (s : string) : string :=
  match s with
  | EmptyString => EmptyString
  | String c s' =>
      if existsb (Ascii.eqb c) removed then without removed s'
      else String c (without removed s')
  end.

(** The patterns of [todo] can be replaced one after the other, [done]
    being replaced already: none was seen before, and the backslash, if it
    is one of them, comes first of all. *)
Fixpoint sequential (done todo : list Ascii.ascii) : bool :=
  match todo with
  | [] => true
  | c :: rest =>
      negb (existsb (Ascii.eqb c) done)
      && (match done with [] => true | _ => negb (Ascii.eqb c backslash) end)
      && sequential (done ++ [c]) rest
  end.

(** ** The queries of [IdeaRepository.List] and [IdeaRepository.Count] *)

Record IdeaFilter := mkIdeaFilter {
  f_Status : list string;
  f_Category : list string;
  f_Priority : list string;
  f_Limit : Z;
  f_Offset : Z
}.

(** The arguments handed to [db.Query] beside the text of the query. *)
Inductive SqlArg :=
| ArgText (s : string)
| ArgInt (n : Z).

Definition tab : string := String (Ascii.ascii_of_nat 9) EmptyString.
Definition star : string := String (Ascii.ascii_of_nat 42) EmptyString.

(** [strings.Join(elems, sep)]. *)
Definition strings_Join (elems : list string) (sep : string) : string :=
  String.concat sep elems.

(** One [if len(values) > 0] block: a placeholder and an argument for each
    value, and the condition [column IN (?,...,?)]. *)
Definition add_condition (column : string) (values : list string)
    (st : list string * list SqlArg) : list string * list SqlArg :=
  if (0 <? length values)%nat then
    (st.1 ++ [column +:+ " IN (" +:+
              strings_Join (map (fun _ => "?") values) "," +:+ ")"],
     st.2 ++ map ArgText values)%list
  else st.

Definition add_where (query : string) (conditions : list string) : string :=
  if (0 <? length conditions)%nat
  then query +:+ " WHERE " +:+ strings_Join conditions " AND "
  else query.

Definition list_select : string :=
  nl +:+ tab +:+ tab +:+
  "SELECT id, telegram_message_id, telegram_chat_id, telegram_user_id,"
  +:+ nl +:+ tab +:+ tab +:+ tab +:+
  "telegram_username, telegram_first_name, raw_text, enriched_json,"
  +:+ nl +:+ tab +:+ tab +:+ tab +:+
  "title, category, priority, complexity, affected_repos, status,"
  +:+ nl +:+ tab +:+ tab +:+ tab +:+
  "admin_notes, created_at, updated_at"
  +:+ nl +:+ tab +:+ tab +:+ "FROM ideas" +:+ nl +:+ tab.

(** The text and the arguments [List] passes to [db.Query]. *)
Definition List_query (filter : IdeaFilter) : string * list SqlArg :=
  let st := add_condition "status" (f_Status filter) ([], []) in
  let st := add_condition "category" (f_Category filter) st in
  let st := add_condition "priority" (f_Priority filter) st in
  let query := add_where list_select st.1 in
  let query := query +:+ " ORDER BY created_at DESC" in
  let '(query, args) :=
    if 0 <? f_Limit filter
    then (query +:+ " LIMIT ?", (st.2 ++ [ArgInt (f_Limit filter)])%list)
    else (query, st.2) in
  if 0 <? f_Offset filter
  then (query +:+ " OFFSET ?", (args ++ [ArgInt (f_Offset filter)])%list)
  else (query, args).

(** The text and the arguments [Count] passes to [db.QueryRow]. *)
Definition Count_query (filter : IdeaFilter) : string * list SqlArg :=
  let st := add_condition "status" (f_Status filter) ([], []) in
  (add_where ("SELECT COUNT(" +:+ star +:+ ") FROM ideas") st.1, st.2).

(** The number of placeholders of a query. *)
Fixpoint placeholders (s : string) : nat :=
  match s with
  | EmptyString => 0
  | String c s' =>
      ((if Ascii.eqb c (Ascii.ascii_of_nat 63) then 1 else 0)
       + placeholders s')%nat
  end.

(** ** Vocabulary of the statements *)

(** The bucket [Allow] consults for a submitter: the one stored under the
    submitter's id, or the full bucket created on first sight. *)
Definition userBucket (rl : RateLimiter) (userID : Z) : rate.Limiter :=
  default (rate.NewLimiter (hourly (perUser rl)) (perUser rl))
          (userLimits rl !! userID).

(** The world after [n] more readings of the clock, with limiter [rl]. *)
Definition after_readings (n : nat) (rl : RateLimiter) (w : World) : World :=
  {| env := env w; ticks := (n + ticks w)%nat; sql_calls := sql_calls w;
     api_calls := api_calls w; db := db w; rateLimiter := rl;
     trace := trace w |}.

Definition is_storage_call (e : Event) : bool :=
  match e with
  | EvSql _ => true
  | _ => false
  end.

Definition is_api_call (e : Event) : bool :=
  match e with
  | EvApi _ => true
  | _ => false
  end.

(** The statements of SQL that change the table. *)
Definition is_write (e : Event) : bool :=
  match e with
  | EvSql (Exec_InsertIdea _) => true
  | EvSql (Exec_UpdateEnriched _ _ _ _ _ _ _ _) => true
  | _ => false
  end.

(** The calls of [IdeaRepository.ListSummaries]. *)
Definition is_summary_read (e : Event) : bool :=
  match e with
  | EvSql Query_Summaries => true
  | EvSql Rows_Next => true
  | EvSql Rows_Scan => true
  | _ => false
  end.

(** [w'] is reached from [w] by emitting [evs] (newest first), every one of
    which satisfies [P], without touching the table. *)
Definition reads_only (P : Event -> bool) (w w' : World) : Prop :=
  db w' = db w /\
  exists evs, trace w' = (evs ++ trace w)%list /\ forallb P evs = true.



(** The ids of the table are pairwise distinct (PRIMARY KEY). *)
Definition unique_ids (d : DB) : Prop := NoDup (map c_id (ideas d)).

(** The first block of type [text] of a message, if it has one. *)
Definition first_text_block (m : Message) : option ContentBlock :=
  find (fun b => String.eqb (Type_ b) "text") (Content m).

(** In the words of the specification: the response contains text when one
    of its blocks of type [text] holds a text that is not empty, and the
    response text decodes when every such text decodes. *)
Definition contains_text (m : Message) : Prop :=
  exists b, b ∈ Content m /\ Type_ b = "text" /\ Text b <> EmptyString.

Definition text_decodes `{JSON} (m : Message) : Prop :=
  forall b, b ∈ Content m -> Type_ b = "text" -> Text b <> EmptyString ->
    (Unmarshal_EnrichedIdea (Text b) EnrichedIdea_zero).2 = None.


(** The submitter's display name sent to the model. *)
Definition display_name (input : CreateIdeaInput) : string :=
  if is_empty (in_TelegramUsername input) then in_TelegramFirstName input
  else in_TelegramUsername input.

Section Stages.
Context {json : JSON} {prompts : Prompts}.
Variable s : ClaudeService.

(** The call of [CreateAndEnrich] started in [w0] is admitted, fetches the
    candidate window [existing] and stands in [w2] after the fetch. *)
Definition fetches (input : CreateIdeaInput) (w0 : World)
    (existing : list IdeaSummary * option error) (w2 : World) : Prop :=
  exists w1,
    RateLimiter_Allow (in_TelegramUserID input)
      (emit (EvLog (log_called input)) w0) = (Val true, w1) /\
    IdeaRepository_ListSummaries (emit (EvLog log_checking) w1)
    = (Val existing, w2).

(** The call started in [w0] gets past the duplicate check and enters the
    creation of the record in [w]: the fetch failed, or the window was
    empty, or the duplicate check failed, or its verdict was negative. *)
Definition reaches_create (input : CreateIdeaInput) (w0 w : World) : Prop :=
  exists existing w2,
    fetches input w0 existing w2 /\
    ((exists err,
        existing.2 = Some err /\ w = emit (EvLog (log_fetch_failed err)) w2) \/
     (existing.2 = None /\ existing.1 = [] /\ w = w2) \/
     (existing.2 = None /\ existing.1 <> [] /\
      exists dupResult w3,
        ClaudeService_CheckDuplicate s (in_RawText input) existing.1 w2
        = (Val dupResult, w3) /\
        ((exists err,
            dupResult.2 = Some err /\
            w = emit (EvLog (log_check_failed err)) w3) \/
         (dupResult.2 = None /\ w = w3 /\
          forall r, dupResult.1 = Some r -> IsDuplicate r = false)))).

(** The record is created as [idea] and the enrichment is attempted; [w2]
    is the world when [EnrichIdea] has returned [enriched]. *)
Definition creates_then_enriches (input : CreateIdeaInput) (w : World)
    (idea : Idea) (enriched : option EnrichedIdea * option error)
    (w2 : World) : Prop :=
  exists w1,
    IdeaRepository_Create input (emit (EvLog log_no_duplicates) w)
    = (Val (Some idea, None), w1) /\
    ClaudeService_EnrichIdea s (in_RawText input) (display_name input)
      (emit (EvLog (log_calling (ID idea)))
         (emit (EvLog (log_created (ID idea))) w1))
    = (Val enriched, w2).

End Stages.

(** [w'] is [w] with more events, and a computation that only ever adds
    events to the trace. *)
Definition extends (w w' : World) : Prop :=
  exists evs, trace w' = (evs ++ trace w)%list.

Definition Mono {A} (m : M A) : Prop :=
  forall w r w', m w = (r, w') -> extends w w'.

(** [m] never panics, and what it returns satisfies [Q]. *)
Definition Returns {A} (Q : A -> Prop) (m : M A) : Prop :=
  forall w, exists v w', m w = (Val v, w') /\ Q v.

(** The shapes the three results of [CreateAndEnrich] can take: an error
    comes with a nil idea and a nil payload, and a success without payload
    comes with an idea. *)
Definition well_formed (o : Outcome) : Prop :=
  (o.2 <> None -> o.1 = (None, None)) /\
  (o.2 = None -> o.1.2 = None -> o.1.1 <> None).

(** [m] calls the language model at most [n] times. *)
Definition api_within {A} (n : nat) (m : M A) : Prop :=
  forall w r w', m w = (r, w') ->
    (api_calls w <= api_calls w' <= api_calls w + n)%nat.

(** ** Test doubles

    A decoder that knows three texts, short prompts, a clock that advances
    by one second at each reading, and a database handle and a language
    model that follow a script. *)
Module Mock.

Definition decode_error : error := errorString "invalid character".

Definition dark_mode : EnrichedIdea :=
  mkEnrichedIdea "Dark mode toggle" "A switch for a dark theme"
    "Lets the user switch the console to a dark theme" "feature" "medium"
    "small" ["web"] "As a user, I want a dark theme, so that I can work at night"
    ["The theme can be switched"] EmptyString [] [].

#[global] Instance json : JSON := {|
  Unmarshal_EnrichedIdea s v :=
    if String.eqb s "payload" then (dark_mode, None)
    else (v, Some decode_error);
  Unmarshal_DuplicateResult s v :=
    if String.eqb s "dup" then (mkDuplicateResult true 1 "same feature", None)
    else if String.eqb s "nodup" then (mkDuplicateResult false 0 EmptyString, None)
    else (v, Some decode_error);
  Unmarshal_strings s v := (v, None);
  Marshal_EnrichedIdea e := inl "payload";
  Marshal_strings l := inl "components"
|}.

#[global] Instance prompts : Prompts := {|
  responseSchema := "schema";
  duplicatePrompt newIdea existing := newIdea +:+ nl +:+ existing
|}.

Definition claude : ClaudeService :=
  {| cs_model := "claude-sonnet-4-20250514"; systemPrompt := "system" |}.

Definition text_reply (s : string) : Message + error :=
  inl (mkMessage [mkBlock "text" s]).

Definition api_down : Message + error := inr (errorString "connection refused").

(** The calls on the database handle numbered in [failing] fail; the [n]-th
    call of the language model gets the [n]-th entry of [replies]. *)
Definition environment (failing : list nat) (replies : list (Message + error))
  : Env :=
  {| clock n := Z.of_nat n * 1000000000;
     sql_fault n :=
       if bool_decide (n ∈ failing) then Some (errorString "disk I/O error")
       else None;
     api_reply n _ := default api_down (replies !! n) |}.

Definition limiter (perUser global : Z) : RateLimiter :=
  {| userLimits := ∅;
     globalLimit := rate.NewLimiter (hourly global) global;
     perUser := perUser |}.

Definition world (e : Env) (rl : RateLimiter) (rows : list Row) : World :=
  {| env := e; ticks := 0; sql_calls := 0; api_calls := 0;
     db := {| ideas := rows; ideas_seq := 0 |}; rateLimiter := rl;
     trace := [] |}.

Definition submission (userID : Z) (text : string) : CreateIdeaInput :=
  mkCreateIdeaInput 100 200 userID "ann" "Ann" text.

Definition row (id : Z) (text status : string) : Row :=
  mkRow id 100 200 1 "ann" "Ann" text EmptyString EmptyString EmptyString
    EmptyString EmptyString EmptyString status EmptyString 0 0.


(** The submission of the scenarios, a limiter with no token left, and the
    worlds the scenarios start in: [failing] and [replies] script the
    database handle and the language model, [rows] is the table. *)
Definition idea : CreateIdeaInput := submission 7 "add dark mode toggle".

Definition exhausted : RateLimiter :=
  {| userLimits := ∅;
     globalLimit := rate.mkLimiter (rate.PerInterval 3600000000000) 1 0 0;
     perUser := 5 |}.

Definition start (failing : list nat) (replies : list (Message + error))
    (rows : list Row) : World :=
  world (environment failing replies) (limiter 5 50) rows.

(** What [Create] reads back of the first record of the scenarios. *)
Definition first_record : Idea :=
  mkIdea 1 100 200 7 "ann" "Ann" "add dark mode toggle" EmptyString None
    EmptyString EmptyString EmptyString EmptyString [] "new" EmptyString
    2000000000 2000000000.

End Mock.

(** * Properties *)

(** ** The token bucket *)

Lemma AllowN_available t lim :
  (rate.AllowN t 1 lim).1 = rate.available t lim.
Proof.
  unfold rate.AllowN, rate.available.
  destruct (rate.limit lim) as [|iv]; [reflexivity|].
  destruct (1 <=? rate.burst lim) eqn:Hb; simpl.
  - destruct (0 <=? rate.advance t lim - 1 * iv) eqn:H1;
      destruct (iv <=? rate.advance t lim) eqn:H2; simpl; try reflexivity; lia.
  - reflexivity.
Qed.

Lemma AllowN_denied t lim :
  rate.available t lim = false -> (rate.AllowN t 1 lim).2 = lim.
Proof.
  rewrite <- AllowN_available. unfold rate.AllowN.
  destruct (rate.limit lim); [discriminate|].
  destruct (_ && _); [discriminate | reflexivity].
Qed.

Lemma AllowN_granted t lim iv :
  rate.available t lim = true -> rate.limit lim = rate.PerInterval iv ->
  rate.credit (rate.AllowN t 1 lim).2 = rate.advance t lim - iv.
Proof.
  rewrite <- AllowN_available. unfold rate.AllowN. intros H Hl.
  rewrite Hl in *.
  destruct (_ && _); [simpl; lia | discriminate].
Qed.

(** ** [RateLimiter.Allow], path by path *)

Section AllowPaths.
Variables (userID : Z) (w : World).
Let rl := rateLimiter w.
Let t1 := clock (env w) (ticks w).
Let t2 := clock (env w) (S (ticks w)).
Let g' := (rate.AllowN t1 1 (globalLimit rl)).2.

Lemma set_globalLimit_same : set_globalLimit (globalLimit rl) rl = rl.
Proof. destruct rl; reflexivity. Qed.

Lemma Allow_global_empty :
  rate.available t1 (globalLimit rl) = false ->
  RateLimiter_Allow userID w = (Val false, after_readings 1 rl w).
Proof.
  intros Hav.
  unfold RateLimiter_Allow, Limiter_Allow, bind, ret, get_rateLimiter,
    put_rateLimiter, time_Now. simpl. fold rl t1.
  rewrite AllowN_available, Hav. simpl.
  rewrite (AllowN_denied _ _ Hav), set_globalLimit_same. reflexivity.
Qed.

Lemma Allow_known_user (u : rate.Limiter) :
  rate.available t1 (globalLimit rl) = true ->
  userLimits rl !! userID = Some u ->
  RateLimiter_Allow userID w
  = (Val (rate.available t2 u),
     after_readings 2
       (set_userLimit userID (rate.AllowN t2 1 u).2 (set_globalLimit g' rl)) w).
Proof.
  intros Hav Hu.
  unfold RateLimiter_Allow, Limiter_Allow, bind, ret, get_rateLimiter,
    put_rateLimiter, time_Now. simpl. fold rl t1.
  rewrite AllowN_available, Hav. simpl. rewrite Hu. simpl. fold t2.
  rewrite AllowN_available. reflexivity.
Qed.

Lemma Allow_new_user :
  rate.available t1 (globalLimit rl) = true ->
  userLimits rl !! userID = None ->
  perUser rl <> 0 ->
  let u := rate.NewLimiter (hourly (perUser rl)) (perUser rl) in
  RateLimiter_Allow userID w
  = (Val (rate.available t2 u),
     after_readings 2
       (set_userLimit userID (rate.AllowN t2 1 u).2
          (set_userLimit userID u (set_globalLimit g' rl))) w).
Proof.
  intros Hav Hu Hp u.
  unfold RateLimiter_Allow, Limiter_Allow, bind, ret, get_rateLimiter,
    put_rateLimiter, time_Now. simpl. fold rl t1.
  rewrite AllowN_available, Hav. simpl. rewrite Hu.
  destruct (perUser rl =? 0) eqn:E; [lia|]. simpl. fold t2 u.
  rewrite AllowN_available. reflexivity.
Qed.

Lemma Allow_new_user_panic :
  rate.available t1 (globalLimit rl) = true ->
  userLimits rl !! userID = None ->
  perUser rl = 0 ->
  RateLimiter_Allow userID w
  = (Panic divide_by_zero, after_readings 1 (set_globalLimit g' rl) w).
Proof.
  intros Hav Hu Hp.
  unfold RateLimiter_Allow, Limiter_Allow, bind, ret, get_rateLimiter,
    put_rateLimiter, time_Now, panic. simpl. fold rl t1.
  rewrite AllowN_available, Hav. simpl. rewrite Hu, Hp. reflexivity.
Qed.

End AllowPaths.

(** [Allow] touches the clock and the limiter only. *)
Lemma Allow_frame userID w r w' :
  RateLimiter_Allow userID w = (r, w') ->
  exists n rl', w' = after_readings n rl' w.
Proof.
  intros Hrun.
  destruct (rate.available (clock (env w) (ticks w))
              (globalLimit (rateLimiter w))) eqn:Hav.
  - destruct (userLimits (rateLimiter w) !! userID) as [u|] eqn:Hu.
    + rewrite (Allow_known_user _ _ u Hav Hu) in Hrun.
      injection Hrun as _ <-. eauto.
    + destruct (decide (perUser (rateLimiter w) = 0)) as [Hp|Hp].
      * rewrite (Allow_new_user_panic _ _ Hav Hu Hp) in Hrun.
        injection Hrun as _ <-. eauto.
      * rewrite (Allow_new_user _ _ Hav Hu Hp) in Hrun.
        injection Hrun as _ <-. eauto.
  - rewrite (Allow_global_empty _ _ Hav) in Hrun.
    injection Hrun as _ <-. eauto.
Qed.

(** C1. [Allow] returns true only if the global bucket and the submitter's
    bucket both hold a token when each is checked.  The global bucket is
    checked first: when it is empty the answer is false and nothing else is
    looked at; when it holds a token that token is taken, one token's worth
    of credit, and stays taken whatever the check of the submitter's bucket
    gives, a denial included. *)
Theorem RateLimiter_Allow_global_first (userID : Z) (w w' : World)
    (r : Res bool) :
  let rl := rateLimiter w in
  let t1 := clock (env w) (ticks w) in
  let t2 := clock (env w) (S (ticks w)) in
  RateLimiter_Allow userID w = (r, w') ->
  (r = Val true ->
     rate.available t1 (globalLimit rl) = true /\
     rate.available t2 (userBucket rl userID) = true) /\
  (rate.available t1 (globalLimit rl) = false ->
     r = Val false /\ w' = after_readings 1 rl w) /\
  (rate.available t1 (globalLimit rl) = true ->
     globalLimit (rateLimiter w') = (rate.AllowN t1 1 (globalLimit rl)).2 /\
     (r = Val false -> rate.available t2 (userBucket rl userID) = false) /\
     forall iv, rate.limit (globalLimit rl) = rate.PerInterval iv ->
       rate.credit (globalLimit (rateLimiter w'))
       = rate.advance t1 (globalLimit rl) - iv).
Proof.
  intros rl t1 t2 Hrun.
  destruct (rate.available t1 (globalLimit rl)) eqn:Hav.
  - assert (globalLimit (rateLimiter w')
            = (rate.AllowN t1 1 (globalLimit rl)).2
            /\ (r = Val true -> rate.available t2 (userBucket rl userID) = true)
            /\ (r = Val false -> rate.available t2 (userBucket rl userID) = false))
      as (Hg & Ht & Hf).
    { unfold userBucket.
      destruct (userLimits rl !! userID) as [u|] eqn:Hu.
      - rewrite (Allow_known_user _ _ u Hav Hu) in Hrun.
        injection Hrun as <- <-. simpl.
        repeat split; intros [= H]; exact H.
      - destruct (decide (perUser rl = 0)) as [Hp|Hp].
        + rewrite (Allow_new_user_panic _ _ Hav Hu Hp) in Hrun.
          injection Hrun as <- <-. simpl. repeat split; discriminate.
        + rewrite (Allow_new_user _ _ Hav Hu Hp) in Hrun.
          injection Hrun as <- <-. simpl.
        repeat split; intros [= H]; exact H. }
    split; [auto|]. split; [discriminate|]. intros _.
    split; [exact Hg|]. split; [exact Hf|].
    intros iv Hiv. rewrite Hg. apply AllowN_granted; assumption.
  - rewrite (Allow_global_empty _ _ Hav) in Hrun. injection Hrun as <- <-.
    split; [discriminate|]. split; [auto | discriminate].
Qed.

(** A second request of submitter 7 within the hour, with one request per
    hour for each submitter and fifty for all: the submitter's bucket denies
    it and the global bucket has lost a second token all the same. *)
Lemma RateLimiter_Allow_global_first_witness :
  let w0 := Mock.world (Mock.environment [] []) (Mock.limiter 1 50) [] in
  let w1 := (RateLimiter_Allow 7 w0).2 in
  let run := RateLimiter_Allow 7 w1 in
  run.1 = Val false /\
  rate.tokensAt 2000000000 (globalLimit (rateLimiter w1)) = Some 49 /\
  rate.credit (globalLimit (rateLimiter run.2))
  = rate.advance 2000000000 (globalLimit (rateLimiter w1)) - 72000000000.
Proof.
  intros w0 w1 run.
  split; [vm_compute; reflexivity|].
  split; [vm_compute; reflexivity|].
  destruct (RateLimiter_Allow_global_first 7 w1 run.2 run.1
              (surjective_pairing run)) as (_ & _ & H3).
  destruct (H3 ltac:(vm_compute; reflexivity)) as (_ & _ & Hcredit).
  apply Hcredit. vm_compute; reflexivity.
Defined.

(** The scenario of the specification: one request per hour for all, five
    for each submitter.  The first submitter is admitted; the second one,
    who never submitted, is denied by the global bucket, and no bucket is
    created for them. *)
Example two_submitters_one_global_token :
  let w0 := Mock.world (Mock.environment [] []) (Mock.limiter 5 1) [] in
  let first := RateLimiter_Allow 1 w0 in
  let second := RateLimiter_Allow 2 first.2 in
  first.1 = Val true /\ second.1 = Val false /\
  userLimits (rateLimiter second.2) !! 2 = None /\
  NewRateLimiter 5 1 = Val (Mock.limiter 5 1).
Proof. vm_compute. repeat split; reflexivity. Qed.

(** ** The Claude client wrappers *)

Section Claude.
Context {json : JSON} {prompts : Prompts}.
Variable s : ClaudeService.

(** The world after one call of [Messages.New]. *)
Lemma client_Messages_New_run params w :
  exists w',
    client_Messages_New params w
    = (Val (api_reply (env w) (api_calls w) params), w') /\
    db w' = db w /\ trace w' = EvApi params :: trace w /\
    api_calls w' = S (api_calls w) /\ sql_calls w' = sql_calls w.
Proof. eexists. repeat split. Qed.

(** C5. With no candidate the duplicate check answers "not a duplicate"
    with a nil error and leaves the world as it is: the language model is
    not called. *)
Theorem CheckDuplicate_empty_window (newIdea : string) (w : World) :
  ClaudeService_CheckDuplicate s newIdea [] w
  = (Val (Some not_duplicate, None), w).
Proof. reflexivity. Qed.

(** C6. A response of the model with no text, or with a text that does not
    decode, makes the duplicate check answer "not a duplicate" with a nil
    error, whatever the candidates. *)
Theorem CheckDuplicate_degrades (newIdea : string)
    (existingIdeas : list IdeaSummary) (w : World) (message : Message) :
  api_reply (env w) (api_calls w) (duplicateParams s newIdea existingIdeas)
  = inl message ->
  responseText (Content message) = EmptyString \/
  (Unmarshal_DuplicateResult (responseText (Content message)) not_duplicate).2
  <> None ->
  (ClaudeService_CheckDuplicate s newIdea existingIdeas w).1
  = Val (Some not_duplicate, None).
Proof.
  intros Hreply Hbad.
  destruct existingIdeas as [|i rest]; [reflexivity|].
  unfold ClaudeService_CheckDuplicate, bind, client_Messages_New, ret.
  simpl. rewrite Hreply. simpl.
  destruct Hbad as [Hempty | Hdecode].
  - rewrite Hempty. reflexivity.
  - destruct (is_empty (responseText (Content message))); [reflexivity|].
    destruct (Unmarshal_DuplicateResult _ _).2; [reflexivity | congruence].
Qed.

(** The duplicate check calls the language model at most once and touches
    nothing else. *)
Lemma CheckDuplicate_frame newIdea existingIdeas w r w' :
  ClaudeService_CheckDuplicate s newIdea existingIdeas w = (r, w') ->
  reads_only is_api_call w w' /\ sql_calls w' = sql_calls w.
Proof.
  unfold ClaudeService_CheckDuplicate, reads_only.
  destruct existingIdeas as [|i rest].
  - intros [= _ <-]. repeat split. exists []. split; reflexivity.
  - unfold bind, client_Messages_New. simpl.
    set (p := duplicateParams s newIdea (i :: rest)).
    assert (Hw : forall (x : Res (option DuplicateResult * option error)) w1,
               (x, w1) = (r, w') ->
               trace w1 = EvApi p :: trace w -> db w1 = db w ->
               sql_calls w1 = sql_calls w ->
               (db w' = db w /\
                exists evs, trace w' = (evs ++ trace w)%list /\
                            forallb is_api_call evs = true) /\
               sql_calls w' = sql_calls w).
    { intros x w1 [= _ <-] Ht Hd Hs. repeat split; try assumption.
      exists [EvApi p]. split; [exact Ht | reflexivity]. }
    destruct (api_reply _ _ _) as [message | err].
    + destruct (is_empty _);
        [|destruct (Unmarshal_DuplicateResult _ _).2];
        intros Hrun; eapply Hw; try exact Hrun; reflexivity.
    + intros Hrun; eapply Hw; try exact Hrun; reflexivity.
Qed.

(** What [EnrichIdea] returns, in terms of the text its loop extracts: an
    error, and then no payload, exactly when the call of the model fails,
    the extracted text is empty or it does not decode; in every other case
    the payload decoded from it and a nil error. *)
Theorem EnrichIdea_hard_errors (rawIdea username : string) (w : World) :
  let reply :=
    api_reply (env w) (api_calls w) (enrichParams s rawIdea username) in
  let decoded (m : Message) :=
    Unmarshal_EnrichedIdea (responseText (Content m)) EnrichedIdea_zero in
  let failing :=
    (exists err, reply = inr err) \/
    (exists m, reply = inl m /\
       (responseText (Content m) = EmptyString \/ (decoded m).2 <> None)) in
  exists res,
    (ClaudeService_EnrichIdea s rawIdea username w).1 = Val res /\
    (res.2 <> None <-> failing) /\
    (res.2 <> None -> res.1 = None) /\
    (res.2 = None ->
       exists m, reply = inl m /\ res = (Some (decoded m).1, None)).
Proof.
  intros reply decoded failing.
  unfold ClaudeService_EnrichIdea, bind, client_Messages_New, ret. simpl.
  fold reply. subst failing.
  destruct reply as [m | err] eqn:Hreply.
  - destruct (responseText (Content m)) as [|c text] eqn:Htext; simpl.
    + eexists. split; [reflexivity|]. simpl. repeat split.
      * intros _. right. exists m. rewrite Htext. auto.
      * discriminate.
      * discriminate.
    + destruct (Unmarshal_EnrichedIdea (String c text) EnrichedIdea_zero).2
        as [e|] eqn:Hdec.
      * eexists. split; [reflexivity|]. simpl. repeat split.
        -- intros _. right. exists m. split; [reflexivity|]. right.
           subst decoded. simpl. rewrite Htext, Hdec. discriminate.
        -- discriminate.
        -- discriminate.
      * eexists. split; [reflexivity|]. simpl. repeat split.
        -- intros H; contradiction.
        -- intros [[err [=]] | (m' & [= <-] & [H | H])].
           ++ rewrite Htext in H. discriminate.
           ++ subst decoded. simpl in H. rewrite Htext, Hdec in H.
              contradiction.
        -- intros H; contradiction.
        -- intros _. exists m. split; [reflexivity|].
           subst decoded. simpl. rewrite Htext. reflexivity.
  - eexists. split; [reflexivity|]. simpl. repeat split.
    + intros _. left. eauto.
    + discriminate.
    + discriminate.
Qed.

(** [EnrichIdea] calls the language model once and touches nothing else. *)
Lemma EnrichIdea_frame rawIdea username w r w' :
  ClaudeService_EnrichIdea s rawIdea username w = (r, w') ->
  db w' = db w /\
  trace w' = EvApi (enrichParams s rawIdea username) :: trace w /\
  sql_calls w' = sql_calls w.
Proof.
  unfold ClaudeService_EnrichIdea, bind, client_Messages_New, ret. simpl.
  destruct (api_reply _ _ _) as [m | err].
  - destruct (is_empty _);
      [|destruct (Unmarshal_EnrichedIdea _ _).2];
      intros [= _ <-]; repeat split.
  - intros [= _ <-]; repeat split.
Qed.

End Claude.

(** ** [EnrichIdea], read on the message *)

Section EnrichIdea_message.
Context {json : JSON} {prompts : Prompts}.
Variable s : ClaudeService.

(** The loop over the blocks stops at the first block of type [text]. *)
Lemma responseText_first_text_block (m : Message) :
  responseText (Content m)
  = match first_text_block m with
    | Some b => Text b
    | None => EmptyString
    end.
Proof.
  unfold first_text_block. induction (Content m) as [|b rest IH]; simpl;
    [reflexivity|].
  destruct (String.eqb (Type_ b) "text"); [reflexivity | exact IH].
Qed.

(** C7, amended.  [EnrichIdea] returns an error, and then no payload,
    exactly when the call of the model fails, the response has no block of
    type [text], the first block of type [text] is empty, or the text of
    that first block does not decode; in every other case it returns the
    payload decoded from the first block of type [text] and a nil error.
    The blocks after the first one of type [text] are never read. *)
Theorem EnrichIdea_errors_on_first_text (rawIdea username : string)
    (w : World) :
  let reply :=
    api_reply (env w) (api_calls w) (enrichParams s rawIdea username) in
  let decoded (b : ContentBlock) :=
    Unmarshal_EnrichedIdea (Text b) EnrichedIdea_zero in
  let failing :=
    (exists err, reply = inr err) \/
    (exists m, reply = inl m /\
       (first_text_block m = None \/
        exists b, first_text_block m = Some b /\
                  (Text b = EmptyString \/ (decoded b).2 <> None))) in
  exists res,
    (ClaudeService_EnrichIdea s rawIdea username w).1 = Val res /\
    (res.2 <> None <-> failing) /\
    (res.2 <> None -> res.1 = None) /\
    (res.2 = None ->
       exists m b, reply = inl m /\ first_text_block m = Some b /\
                   Text b <> EmptyString /\
                   res = (Some (decoded b).1, None)).
Proof.
  intros reply decoded failing.
  destruct (EnrichIdea_hard_errors s rawIdea username w)
    as (res & Hrun & Hiff & Hnone & Hsome).
  exists res. split; [exact Hrun|]. split; [|split; [exact Hnone|]].
  - rewrite Hiff. subst failing. fold reply. split.
    + intros [Herr | (m & Hm & Hbad)]; [left; exact Herr | right].
      exists m. split; [exact Hm|].
      rewrite responseText_first_text_block in Hbad.
      destruct (first_text_block m) as [b|]; [|left; reflexivity].
      right. exists b. split; [reflexivity | exact Hbad].
    + intros [Herr | (m & Hm & Hbad)]; [left; exact Herr | right].
      exists m. split; [exact Hm|].
      rewrite responseText_first_text_block.
      destruct Hbad as [Hn | (b & Hn & Hb)]; rewrite Hn;
        [left; reflexivity | exact Hb].
  - intros Hok. destruct (Hsome Hok) as (m & Hm & Hres).
    assert (Hgood : ~ (responseText (Content m) = EmptyString \/
                       (Unmarshal_EnrichedIdea (responseText (Content m))
                          EnrichedIdea_zero).2 <> None)).
    { intros Hbad. apply (proj2 Hiff); [|exact Hok].
      right. exists m. split; [exact Hm | exact Hbad]. }
    rewrite responseText_first_text_block in Hres, Hgood.
    destruct (first_text_block m) as [b|] eqn:Hb.
    + exists m, b. split; [exact Hm|]. split; [exact Hb|].
      split; [|exact Hres]. intros Hempty. apply Hgood. left. exact Hempty.
    + exfalso. apply Hgood. left. reflexivity.
Qed.

End EnrichIdea_message.

(** The claim as first stated fails on a response whose first block of
    type [text] is empty and whose second one holds a payload: the call of
    the model succeeded, the response contains text, that text decodes, and
    [EnrichIdea] returns an error all the same. *)
Lemma EnrichIdea_hard_errors_counterexample :
  let m := mkMessage [mkBlock "text" EmptyString; mkBlock "text" "payload"] in
  let w := Mock.start [] [inl m] [] in
  let reply :=
    api_reply (env w) (api_calls w)
      (enrichParams Mock.claude "add dark mode toggle" "ann") in
  let returned :=
    (ClaudeService_EnrichIdea Mock.claude "add dark mode toggle" "ann" w).1 in
  let claimed_to_fail :=
    (exists err, reply = inr err) \/
    (exists m', reply = inl m' /\
                (~ contains_text m' \/ ~ text_decodes m')) in
  returned = Val (None, Some (errorString "empty response from Claude")) /\
  ~ ((exists o err, returned = Val (o, Some err)) <-> claimed_to_fail).
Proof.
  intros m w reply returned claimed_to_fail.
  assert (Hret : returned
                 = Val (None, Some (errorString "empty response from Claude")))
    by (vm_compute; reflexivity).
  assert (Hreply : reply = inl m) by (vm_compute; reflexivity).
  assert (Htext : contains_text m).
  { exists (mkBlock "text" "payload"). split; [right; left|].
    split; [reflexivity | discriminate]. }
  assert (Hdec : text_decodes m).
  { intros b Hin _ Hne.
    apply elem_of_cons in Hin as [-> | Hin]; [contradiction Hne; reflexivity|].
    apply list_elem_of_singleton in Hin as ->. vm_compute. reflexivity. }
  split; [exact Hret|].
  intros [Hclaim _].
  destruct (Hclaim (ex_intro _ _ (ex_intro _ _ Hret)))
    as [[err Herr] | (m' & Hm' & [Hno | Hno])].
  - rewrite Hreply in Herr. discriminate.
  - rewrite Hreply in Hm'. injection Hm' as <-. exact (Hno Htext).
  - rewrite Hreply in Hm'. injection Hm' as <-. exact (Hno Hdec).
Qed.

(** ** Traces *)

Lemma reads_only_refl P w : reads_only P w w.
Proof. split; [reflexivity|]. exists []. split; reflexivity. Qed.

Lemma reads_only_trans P w1 w2 w3 :
  reads_only P w1 w2 -> reads_only P w2 w3 -> reads_only P w1 w3.
Proof.
  intros (Hd1 & evs1 & Ht1 & Hp1) (Hd2 & evs2 & Ht2 & Hp2).
  split; [congruence|]. exists (evs2 ++ evs1)%list.
  split; [rewrite Ht2, Ht1; apply app_assoc|].
  rewrite forallb_app, Hp1, Hp2. reflexivity.
Qed.

Lemma reads_only_emit P e w : P e = true -> reads_only P w (emit e w).
Proof.
  intros He. split; [reflexivity|]. exists [e].
  split; [reflexivity | simpl; rewrite He; reflexivity].
Qed.

Lemma reads_only_weaken (P Q : Event -> bool) w w' :
  (forall e, P e = true -> Q e = true) ->
  reads_only P w w' -> reads_only Q w w'.
Proof.
  intros HPQ (Hd & evs & Ht & Hp). split; [exact Hd|]. exists evs.
  split; [exact Ht|]. rewrite forallb_forall in *. auto.
Qed.

Lemma reads_only_after_readings P n rl w :
  reads_only P w (after_readings n rl w).
Proof. split; [reflexivity|]. exists []. split; reflexivity. Qed.

(** ** The repository *)

Section Storage.
Context {json : JSON}.

Lemma sql_call_run c w :
  exists w',
    sql_call c w = (Val (sql_fault (env w) (sql_calls w)), w') /\
    db w' = db w /\ trace w' = EvSql c :: trace w /\
    api_calls w' = api_calls w /\ env w' = env w.
Proof. eexists. repeat split. Qed.

Lemma scan_summaries_frame rows : forall summaries w r w',
  scan_summaries rows summaries w = (r, w') ->
  reads_only is_summary_read w w' /\ api_calls w' = api_calls w /\
  exists v, r = Val v.
Proof.
  induction rows as [|row rows IH]; intros summaries w r w'; simpl;
    unfold bind, sql_call, ret; simpl.
  - destruct (sql_fault (env w) (sql_calls w)); simpl; intros [= <- <-];
      (split; [|split; [reflexivity | eauto]]);
      (split; [reflexivity|]); exists [EvSql Rows_Next]; split; reflexivity.
  - destruct (sql_fault (env w) (sql_calls w)); simpl.
    + intros [= <- <-]. split; [|split; [reflexivity | eauto]].
      split; [reflexivity|]. exists [EvSql Rows_Next]. split; reflexivity.
    + destruct (sql_fault (env w) (S (sql_calls w))); simpl.
      * intros [= <- <-]. split; [|split; [reflexivity | eauto]].
        split; [reflexivity|]. exists [EvSql Rows_Scan; EvSql Rows_Next].
        split; reflexivity.
      * intros Hrun. apply IH in Hrun as (Hro & Hapi & Hv).
        split; [|split; [exact Hapi | exact Hv]].
        eapply reads_only_trans; [|exact Hro].
        split; [reflexivity|]. exists [EvSql Rows_Scan; EvSql Rows_Next].
        split; reflexivity.
Qed.

Lemma ListSummaries_frame w r w' :
  IdeaRepository_ListSummaries w = (r, w') ->
  reads_only is_summary_read w w' /\ api_calls w' = api_calls w /\
  exists v, r = Val v.
Proof.
  unfold IdeaRepository_ListSummaries, bind, sql_call, ret, get_db. simpl.
  destruct (sql_fault (env w) (sql_calls w)); simpl.
  - intros [= <- <-]. split; [|split; [reflexivity | eauto]].
    split; [reflexivity|]. exists [EvSql Query_Summaries]. split; reflexivity.
  - intros Hrun. apply scan_summaries_frame in Hrun as (Hro & Hapi & Hv).
    split; [|split; [exact Hapi | exact Hv]].
    eapply reads_only_trans; [|exact Hro].
    split; [reflexivity|]. exists [EvSql Query_Summaries]. split; reflexivity.
Qed.

(** What [GetByID] reads back from a row. *)
Lemma idea_of_row_ID r : ID (idea_of_row r) = c_id r.
Proof.
  unfold idea_of_row, ParseEnriched. simpl.
  destruct (is_empty (c_enriched_json r)); reflexivity.
Qed.

Lemma idea_of_row_Status r : Status (idea_of_row r) = c_status r.
Proof.
  unfold idea_of_row, ParseEnriched. simpl.
  destruct (is_empty (c_enriched_json r)); reflexivity.
Qed.

Lemma idea_of_row_unenriched r :
  c_enriched_json r = EmptyString ->
  Enriched (idea_of_row r) = None /\ EnrichedJSON (idea_of_row r) = EmptyString.
Proof.
  intros H. unfold idea_of_row, ParseEnriched. simpl. rewrite H. simpl. auto.
Qed.

Lemma GetByID_found id w idea w' :
  IdeaRepository_GetByID id w = (Val (Some idea, None), w') ->
  db w' = db w /\
  exists r, select_by_id id (db w) = Some r /\ idea = idea_of_row r.
Proof.
  unfold IdeaRepository_GetByID, bind, sql_call, ret, get_db. simpl.
  destruct (sql_fault (env w) (sql_calls w)); simpl; [discriminate|].
  destruct (select_by_id id (db w)) as [r|]; simpl; [|discriminate].
  intros [= <- <-]. split; [reflexivity | eauto].
Qed.

Lemma select_by_id_insert input now d :
  select_by_id (insert_idea input now d).1 (insert_idea input now d).2
  = Some (mkRow (next_id d) (in_TelegramMessageID input)
            (in_TelegramChatID input) (in_TelegramUserID input)
            (in_TelegramUsername input) (in_TelegramFirstName input)
            (in_RawText input) EmptyString EmptyString EmptyString
            EmptyString EmptyString EmptyString StatusNew EmptyString now now).
Proof. unfold select_by_id, insert_idea. simpl. rewrite Z.eqb_refl. reflexivity. Qed.

(** The id of a new row is the id of no row of the table. *)
Lemma next_id_fresh d r : r ∈ ideas d -> c_id r < next_id d.
Proof.
  unfold next_id. induction (ideas d) as [|r' rows IH]; intros Hin.
  - inversion Hin.
  - simpl. apply elem_of_cons in Hin as [-> | Hin]; [lia|].
    specialize (IH Hin). lia.
Qed.

(** A successful [Create] leaves the record in the table, with status [new]
    and no enriched payload, and returns what it reads back of it. *)
Lemma Create_success input w idea w' :
  IdeaRepository_Create input w = (Val (Some idea, None), w') ->
  exists r,
    select_by_id (ID idea) (db w') = Some r /\ idea = idea_of_row r /\
    c_status r = StatusNew /\ c_enriched_json r = EmptyString /\
    c_raw_text r = in_RawText input /\
    c_telegram_user_id r = in_TelegramUserID input /\
    (forall r', r' ∈ ideas (db w) -> c_id r' <> ID idea).
Proof.
  unfold IdeaRepository_Create, bind, sql_call, ret, get_db, put_db,
    time_Now. simpl.
  destruct (sql_fault (env w) (sql_calls w)); simpl; [discriminate|].
  destruct (sql_fault (env w) (S (sql_calls w))); simpl; [discriminate|].
  intros Hget. apply GetByID_found in Hget as (Hdb & r & Hsel & ->).
  simpl in Hsel, Hdb. unfold select_by_id in Hsel. simpl in Hsel.
  rewrite Z.eqb_refl in Hsel. injection Hsel as <-.
  rewrite Hdb, idea_of_row_ID. simpl.
  eexists. split.
  { unfold select_by_id. simpl. rewrite Z.eqb_refl. reflexivity. }
  repeat split.
  intros r' Hin Heq. apply next_id_fresh in Hin. lia.
Qed.

End Storage.

(** ** Running the monad *)

Lemma bind_run {A B} (m : M A) (k : A -> M B) w a w1 :
  m w = (Val a, w1) -> bind m k w = k a w1.
Proof. unfold bind. intros ->. reflexivity. Qed.

Lemma bind_inv {A B} (m : M A) (k : A -> M B) w r w' :
  bind m k w = (r, w') ->
  (exists a w1, m w = (Val a, w1) /\ k a w1 = (r, w')) \/
  (exists msg, m w = (Panic msg, w') /\ r = Panic msg).
Proof.
  unfold bind. destruct (m w) as [[a | msg] w1].
  - left. eauto.
  - intros [= <- <-]. right. eauto.
Qed.

Lemma extends_refl w : extends w w.
Proof. exists []. reflexivity. Qed.

Lemma extends_trans w1 w2 w3 : extends w1 w2 -> extends w2 w3 -> extends w1 w3.
Proof.
  intros [e1 H1] [e2 H2]. exists (e2 ++ e1)%list.
  rewrite H2, H1. apply app_assoc.
Qed.

Lemma Mono_ret {A} (a : A) : Mono (ret a).
Proof. intros w r w' [= _ <-]. apply extends_refl. Qed.

Lemma Mono_panic {A} msg : Mono (@panic A msg).
Proof. intros w r w' [= _ <-]. apply extends_refl. Qed.

Lemma Mono_bind {A B} (m : M A) (k : A -> M B) :
  Mono m -> (forall a, Mono (k a)) -> Mono (bind m k).
Proof.
  intros Hm Hk w r w' Hrun.
  apply bind_inv in Hrun as [(a & w1 & H1 & H2) | (msg & H1 & _)].
  - eapply extends_trans; [eapply Hm, H1 | eapply Hk, H2].
  - eapply Hm, H1.
Qed.

Lemma Mono_log_Printf line : Mono (log_Printf line).
Proof. intros w r w' [= _ <-]. exists [EvLog line]. reflexivity. Qed.

Lemma Mono_time_Now : Mono time_Now.
Proof. intros w r w' [= _ <-]. exists []. reflexivity. Qed.

Lemma Mono_sql_call c : Mono (sql_call c).
Proof. intros w r w' [= _ <-]. exists [EvSql c]. reflexivity. Qed.

Lemma Mono_client_Messages_New p : Mono (client_Messages_New p).
Proof. intros w r w' [= _ <-]. exists [EvApi p]. reflexivity. Qed.

Lemma Mono_get_db : Mono get_db.
Proof. intros w r w' [= _ <-]. apply extends_refl. Qed.

Lemma Mono_put_db d : Mono (put_db d).
Proof. intros w r w' [= _ <-]. exists []. reflexivity. Qed.

Ltac mono :=
  repeat first
    [ apply Mono_ret | apply Mono_panic | apply Mono_log_Printf
    | apply Mono_time_Now | apply Mono_sql_call
    | apply Mono_client_Messages_New | apply Mono_get_db | apply Mono_put_db
    | apply Mono_bind; [|intros ?]
    | match goal with
      | |- Mono (match ?x with _ => _ end) => destruct x
      | |- Mono (let _ := _ in _) => cbv zeta
      end ].

Section Pipeline_facts.
Context {json : JSON} {prompts : Prompts}.
Variable s : ClaudeService.

Lemma Mono_GetByID id : Mono (IdeaRepository_GetByID id).
Proof. unfold IdeaRepository_GetByID. mono. Qed.

Lemma Mono_UpdateEnriched id e : Mono (IdeaRepository_UpdateEnriched id e).
Proof. unfold IdeaRepository_UpdateEnriched. mono. Qed.

Lemma Mono_EnrichIdea rawIdea username :
  Mono (ClaudeService_EnrichIdea s rawIdea username).
Proof. unfold ClaudeService_EnrichIdea. mono. Qed.

(** [Create] begins with the INSERT. *)
Lemma Create_trace input w r w' :
  IdeaRepository_Create input w = (r, w') ->
  exists evs, trace w' = (evs ++ EvSql (Exec_InsertIdea input) :: trace w)%list.
Proof.
  unfold IdeaRepository_Create. intros Hrun.
  apply bind_inv in Hrun as [(a & w1 & H1 & H2) | (msg & [=] & _)].
  injection H1 as <- <-.
  assert (Hk : extends
                 {| env := env w; ticks := ticks w;
                    sql_calls := S (sql_calls w); api_calls := api_calls w;
                    db := db w; rateLimiter := rateLimiter w;
                    trace := EvSql (Exec_InsertIdea input) :: trace w |} w').
  { revert H2. generalize (sql_fault (env w) (sql_calls w)). intros o.
    match goal with |- ?m ?w0 = _ -> _ => assert (Mono m) as HM end.
    { mono. }
    apply HM. }
  exact Hk.
Qed.

(** The creation stage logs, then calls [Create]: whatever happens next,
    the INSERT has been sent. *)
Lemma create_sends_insert input w r w' :
  CreateAndEnrich_create s input w = (r, w') ->
  exists evs,
    trace w'
    = (evs ++ EvSql (Exec_InsertIdea input)
           :: EvLog log_no_duplicates :: trace w)%list.
Proof.
  unfold CreateAndEnrich_create. intros Hrun.
  apply bind_inv in Hrun as [(a & w1 & H1 & H2) | (msg & [=] & _)].
  injection H1 as _ <-.
  apply bind_inv in H2 as [(created & w2 & H2 & H3) | (msg & H2 & _)].
  - apply Create_trace in H2 as [evs Hevs].
    assert (Hk : extends w2 w').
    { revert H3.
      match goal with |- ?m ?w0 = _ -> _ => assert (Mono m) as HM end.
      { mono. apply Mono_UpdateEnriched. }
      apply HM. }
    destruct Hk as [evs' Hevs']. exists (evs' ++ evs)%list.
    rewrite Hevs', Hevs. apply app_assoc.
  - apply Create_trace in H2. exact H2.
Qed.

End Pipeline_facts.

(** ** The intake pipeline *)

Ltac run H := erewrite bind_run by exact H.
Ltac run_log := erewrite bind_run by reflexivity.

Section Intake.
Context {json : JSON} {prompts : Prompts}.
Variable s : ClaudeService.

(** Up to the end of the fetch nothing is written and the model is not
    called. *)
Lemma fetches_quiet input w0 existing w2 :
  fetches input w0 existing w2 ->
  reads_only (fun e => negb (is_write e) && negb (is_api_call e)) w0 w2.
Proof.
  intros (w1 & Hallow & Hfetch).
  apply Allow_frame in Hallow as (n & rl' & ->).
  apply ListSummaries_frame in Hfetch as (Hread & _ & _).
  eapply reads_only_trans; [apply (reads_only_emit _ (EvLog (log_called input))); reflexivity|].
  eapply reads_only_trans; [apply reads_only_after_readings|].
  eapply reads_only_trans; [apply (reads_only_emit _ (EvLog log_checking)); reflexivity|].
  eapply reads_only_weaken; [|exact Hread].
  intros [l | [] | p]; simpl; congruence.
Qed.

Lemma reaches_create_run input w0 w :
  reaches_create s input w0 w ->
  CreateAndEnrich s input w0 = CreateAndEnrich_create s input w.
Proof.
  intros ([existing err] & w2 & (w1 & Hallow & Hfetch) & Hcases).
  unfold CreateAndEnrich. run_log. run Hallow. simpl. run_log. run Hfetch.
  simpl in *.
  destruct Hcases as [(e & -> & ->) | [(-> & -> & ->) | (-> & Hne & dup & w3 & Hdup & Hc)]].
  - run_log. reflexivity.
  - reflexivity.
  - destruct existing as [|i rest]; [congruence|]. simpl. run Hdup.
    destruct Hc as [(e & -> & ->) | (-> & -> & Hno)].
    + run_log. reflexivity.
    + destruct dup.1 as [r|]; [rewrite (Hno r eq_refl)|]; reflexivity.
Qed.

(** Nothing is written before the creation of the record starts. *)
Lemma reaches_create_quiet input w0 w :
  reaches_create s input w0 w ->
  reads_only (fun e => negb (is_write e)) w0 w.
Proof.
  intros (existing & w2 & Hfetch & Hcases).
  apply fetches_quiet in Hfetch.
  assert (Hq : reads_only (fun e => negb (is_write e)) w0 w2).
  { eapply reads_only_weaken; [|exact Hfetch].
    intros e He. apply andb_true_iff in He as [He _]. exact He. }
  destruct Hcases as [(e & _ & ->) | [(_ & _ & ->) | (_ & _ & dup & w3 & Hdup & Hc)]].
  - eapply reads_only_trans; [exact Hq|]. apply reads_only_emit. reflexivity.
  - exact Hq.
  - apply CheckDuplicate_frame in Hdup as [Hd _].
    assert (Hq3 : reads_only (fun e => negb (is_write e)) w0 w3).
    { eapply reads_only_trans; [exact Hq|].
      eapply reads_only_weaken; [|exact Hd]. intros [l | c | p]; simpl; congruence. }
    destruct Hc as [(e & _ & ->) | (_ & -> & _)]; [|exact Hq3].
    eapply reads_only_trans; [exact Hq3|]. apply reads_only_emit. reflexivity.
Qed.

(** C4. A submission that [Allow] denies returns at once with the error
    "rate limit exceeded", which the caller reads as the rate-limit reply:
    the run emits its two log lines and nothing else, no call on the
    database handle, no call of the language model, and the table is the
    same. *)
Theorem CreateAndEnrich_rate_limited (input : CreateIdeaInput)
    (w0 w1 : World) :
  RateLimiter_Allow (in_TelegramUserID input)
    (emit (EvLog (log_called input)) w0) = (Val false, w1) ->
  let denied : Outcome :=
    (None, None, Some (errorString "rate limit exceeded")) in
  exists w',
    CreateAndEnrich s input w0 = (Val denied, w') /\
    classify denied = Val RateLimited /\
    trace w'
    = EvLog (log_rate_limit input) :: EvLog (log_called input) :: trace w0 /\
    db w' = db w0 /\ sql_calls w' = sql_calls w0 /\
    api_calls w' = api_calls w0.
Proof.
  intros Hallow denied.
  exists (emit (EvLog (log_rate_limit input)) w1). split.
  - unfold CreateAndEnrich. run_log. run Hallow. simpl. run_log. reflexivity.
  - apply Allow_frame in Hallow as (n & rl' & ->). repeat split.
Qed.

(** C2. When the duplicate check returns a positive verdict the call
    returns a [DuplicateError] with the id and the reason of the verdict,
    which the caller reads as the duplicate reply; no INSERT and no UPDATE
    was sent and the table is the same. *)
Theorem CreateAndEnrich_duplicate (input : CreateIdeaInput) (w0 w2 w3 : World)
    (existing : list IdeaSummary) (r : DuplicateResult) :
  fetches input w0 (existing, None) w2 ->
  ClaudeService_CheckDuplicate s (in_RawText input) existing w2
  = (Val (Some r, None), w3) ->
  IsDuplicate r = true ->
  let rejected : Outcome :=
    (None, None, Some (DuplicateError (SimilarIdeaID r) (Reason_ r))) in
  exists w',
    CreateAndEnrich s input w0 = (Val rejected, w') /\
    classify rejected = Val (DuplicateOf (SimilarIdeaID r) (Reason_ r)) /\
    reads_only (fun e => negb (is_write e)) w0 w'.
Proof.
  intros Hfetch Hdup Hpos rejected.
  exists (emit (EvLog (log_duplicate r)) w3). split; [|split; [reflexivity|]].
  - destruct Hfetch as (w1 & Hallow & Hfetch).
    unfold CreateAndEnrich. run_log. run Hallow. simpl. run_log. run Hfetch.
    simpl. destruct existing as [|i rest].
    + injection Hdup as <- _. discriminate.
    + simpl. run Hdup. simpl. rewrite Hpos. run_log. reflexivity.
  - apply fetches_quiet in Hfetch. apply CheckDuplicate_frame in Hdup as [Hd _].
    eapply reads_only_trans; [eapply reads_only_weaken; [|exact Hfetch]|].
    { intros e He. apply andb_true_iff in He as [He _]. exact He. }
    eapply reads_only_trans; [eapply reads_only_weaken; [|exact Hd]|].
    { intros [l | c | p]; simpl; congruence. }
    apply reads_only_emit. reflexivity.
Qed.

(** C8. When the fetch of the candidate window fails, the failure is logged
    and the call goes on with the creation of the record, as it does for an
    empty window: between its start and the creation stage nothing is
    written and the language model is not called, and the next call on a
    collaborator is the INSERT. *)
Theorem CreateAndEnrich_fetch_failure (input : CreateIdeaInput)
    (w0 w2 : World) (partial : list IdeaSummary) (err : error) :
  fetches input w0 (partial, Some err) w2 ->
  let w := emit (EvLog (log_fetch_failed err)) w2 in
  CreateAndEnrich s input w0 = CreateAndEnrich_create s input w /\
  reads_only (fun e => negb (is_write e) && negb (is_api_call e)) w0 w /\
  (exists evs,
     trace (CreateAndEnrich s input w0).2
     = (evs ++ EvSql (Exec_InsertIdea input) :: EvLog log_no_duplicates
            :: EvLog (log_fetch_failed err) :: trace w2)%list) /\
  (forall v0 v2, fetches input v0 ([], None) v2 ->
     CreateAndEnrich s input v0 = CreateAndEnrich_create s input v2).
Proof.
  intros Hfetch w.
  assert (Hrun : CreateAndEnrich s input w0 = CreateAndEnrich_create s input w).
  { apply reaches_create_run. exists (partial, Some err), w2.
    split; [exact Hfetch|]. left. exists err. split; reflexivity. }
  split; [exact Hrun|]. split; [|split].
  - eapply reads_only_trans; [exact (fetches_quiet _ _ _ _ Hfetch)|].
    apply reads_only_emit. reflexivity.
  - rewrite Hrun.
    apply (create_sends_insert s input w _ _ (surjective_pairing _)).
  - intros v0 v2 Hv. apply reaches_create_run. exists ([], None), v2.
    split; [exact Hv|]. right. left. repeat split.
Qed.

End Intake.

Section Enrichment.
Context {json : JSON} {prompts : Prompts}.
Variable s : ClaudeService.

(** [GetByID] always returns, and leaves the table as it is. *)
Lemma GetByID_returns id w :
  exists v w', IdeaRepository_GetByID id w = (Val v, w') /\ db w' = db w.
Proof.
  unfold IdeaRepository_GetByID, bind, sql_call, ret, get_db. simpl.
  destruct (sql_fault (env w) (sql_calls w)); simpl.
  - eexists _, _. split; reflexivity.
  - destruct (select_by_id id (db w)); simpl; eexists _, _; split; reflexivity.
Qed.

(** A failed [UpdateEnriched] has changed no row. *)
Lemma UpdateEnriched_failed id e w err w' :
  IdeaRepository_UpdateEnriched id e w = (Val (Some err), w') ->
  db w' = db w.
Proof.
  unfold IdeaRepository_UpdateEnriched, bind, sql_call, ret, get_db, put_db,
    time_Now.
  destruct (Marshal_EnrichedIdea e); [|intros [= _ <-]; reflexivity].
  destruct (Marshal_strings _); [|intros [= _ <-]; reflexivity].
  simpl. destruct (sql_fault (env w) (sql_calls w)); simpl.
  - intros [= _ <-]. reflexivity.
  - discriminate.
Qed.

(** The creation stage up to the answer of [EnrichIdea]. *)
Lemma create_enrich_run input w idea enriched w2 :
  creates_then_enriches s input w idea enriched w2 ->
  CreateAndEnrich_create s input w
  = match enriched.2 with
    | Some err =>
        (Val (Some idea, None, None),
         emit (EvLog (log_enrich_failed (ID idea) err)) w2)
    | None =>
        match enriched.1 with
        | None => (Panic nil_dereference,
                   emit (EvLog (log_enriched (ID idea))) w2)
        | Some e =>
            bind (IdeaRepository_UpdateEnriched (ID idea) e)
              (fun err =>
                 bind match err with
                      | Some err => log_Printf (log_save_failed (ID idea) err)
                      | None => ret tt
                      end
                   (fun _ =>
                      bind (IdeaRepository_GetByID (ID idea))
                        (fun refreshed => ret (refreshed.1, Some e, None))))
              (emit (EvLog (log_enriched (ID idea))) w2)
        end
    end.
Proof.
  intros (w1 & Hcreate & Henrich).
  unfold CreateAndEnrich_create. run_log. run Hcreate. simpl.
  run_log. run_log. cbv zeta. fold (display_name input). run Henrich.
  destruct enriched as [o [err|]]; simpl.
  - run_log. reflexivity.
  - run_log. destruct o; reflexivity.
Qed.

(** C3. When the record was created and [EnrichIdea] returns an error, the
    call returns the created record with no payload and a nil error, which
    the caller reads as saved without enrichment; the record is in the
    table with status [new] and an empty enriched payload. *)
Theorem CreateAndEnrich_enrichment_failed (input : CreateIdeaInput)
    (w0 w w2 : World) (idea : Idea) (o : option EnrichedIdea) (err : error) :
  reaches_create s input w0 w ->
  creates_then_enriches s input w idea (o, Some err) w2 ->
  exists w',
    CreateAndEnrich s input w0 = (Val (Some idea, None, None), w') /\
    classify (Some idea, None, None) = Val SavedWithoutEnrichment /\
    Status idea = StatusNew /\ Enriched idea = None /\
    exists r,
      select_by_id (ID idea) (db w') = Some r /\ idea = idea_of_row r /\
      c_status r = StatusNew /\ c_enriched_json r = EmptyString /\
      c_raw_text r = in_RawText input.
Proof.
  intros Hreach Hce.
  exists (emit (EvLog (log_enrich_failed (ID idea) err)) w2).
  split.
  { rewrite (reaches_create_run s _ _ _ Hreach).
    rewrite (create_enrich_run _ _ _ _ _ Hce). reflexivity. }
  split; [reflexivity|].
  destruct Hce as (w1 & Hcreate & Henrich).
  apply EnrichIdea_frame in Henrich as (Hdb & _ & _).
  apply Create_success in Hcreate as (r & Hsel & -> & Hst & Hej & Hraw & _ & _).
  rewrite idea_of_row_Status.
  destruct (idea_of_row_unenriched r Hej) as [Hen _].
  split; [exact Hst|]. split; [exact Hen|].
  exists r. simpl. rewrite Hdb. simpl. repeat split; assumption.
Qed.

(** C9. When enrichment succeeds and saving the payload fails, the failure
    is logged and the call still returns the payload with a nil error; the
    table is as it was before the attempt. *)
Theorem CreateAndEnrich_persist_failed (input : CreateIdeaInput)
    (w0 w w2 w3 : World) (idea : Idea) (e : EnrichedIdea) (err : error) :
  reaches_create s input w0 w ->
  creates_then_enriches s input w idea (Some e, None) w2 ->
  IdeaRepository_UpdateEnriched (ID idea) e
    (emit (EvLog (log_enriched (ID idea))) w2) = (Val (Some err), w3) ->
  exists refreshed w',
    CreateAndEnrich s input w0 = (Val (refreshed, Some e, None), w') /\
    extends (emit (EvLog (log_save_failed (ID idea) err)) w3) w' /\
    db w' = db w2.
Proof.
  intros Hreach Hce Hupd.
  destruct (GetByID_returns (ID idea)
              (emit (EvLog (log_save_failed (ID idea) err)) w3))
    as (v & w' & Hget & Hdb).
  exists v.1, w'. split; [|split].
  - rewrite (reaches_create_run s _ _ _ Hreach).
    rewrite (create_enrich_run _ _ _ _ _ Hce). simpl.
    run Hupd. run_log. run Hget. reflexivity.
  - eapply Mono_GetByID, Hget.
  - rewrite Hdb. simpl. apply UpdateEnriched_failed in Hupd. exact Hupd.
Qed.

(** C10. When enrichment succeeds and the last [GetByID] fails, the call
    returns a nil record with the payload and a nil error; the caller, which
    reads [idea.ID] on success, panics on it. *)
Theorem CreateAndEnrich_reread_failed (input : CreateIdeaInput)
    (w0 w w2 w3 w4 : World) (idea : Idea) (e : EnrichedIdea)
    (saved : option error) (err : error) :
  reaches_create s input w0 w ->
  creates_then_enriches s input w idea (Some e, None) w2 ->
  IdeaRepository_UpdateEnriched (ID idea) e
    (emit (EvLog (log_enriched (ID idea))) w2) = (Val saved, w3) ->
  IdeaRepository_GetByID (ID idea)
    match saved with
    | Some err' => emit (EvLog (log_save_failed (ID idea) err')) w3
    | None => w3
    end = (Val (None, Some err), w4) ->
  CreateAndEnrich s input w0 = (Val (None, Some e, None), w4) /\
  classify (None, Some e, None) = Panic nil_dereference.
Proof.
  intros Hreach Hce Hupd Hget. split; [|reflexivity].
  rewrite (reaches_create_run s _ _ _ Hreach).
  rewrite (create_enrich_run _ _ _ _ _ Hce). simpl.
  run Hupd. destruct saved as [err'|].
  - run_log. run Hget. reflexivity.
  - erewrite bind_run by reflexivity. run Hget. reflexivity.
Qed.

End Enrichment.


(** ** The scenarios *)

(** Proves an equation between closed terms by evaluating both sides. *)
Ltac evaluate := vm_compute; reflexivity.

(** A submission that finds the limiter without a token. *)
Lemma CreateAndEnrich_rate_limited_witness :
  let w0 := Mock.world (Mock.environment [] []) Mock.exhausted [] in
  exists w',
    CreateAndEnrich Mock.claude Mock.idea w0
    = (Val (None, None, Some (errorString "rate limit exceeded")), w') /\
    sql_calls w' = 0%nat /\ api_calls w' = 0%nat.
Proof.
  intros w0.
  set (allow := RateLimiter_Allow (in_TelegramUserID Mock.idea)
                  (emit (EvLog (log_called Mock.idea)) w0)).
  assert (Hallow : allow = (Val false, allow.2)) by evaluate.
  destruct (CreateAndEnrich_rate_limited Mock.claude Mock.idea w0 _ Hallow)
    as (w' & Hrun & _ & _ & _ & Hsql & Hapi).
  exists w'. split; [exact Hrun|]. split; assumption.
Defined.

(** A submission flagged as a duplicate of record 1. *)
Lemma CreateAndEnrich_duplicate_witness :
  let w0 := Mock.start [] [Mock.text_reply "dup"]
              [Mock.row 1 "dark theme for the console" "new"] in
  exists w',
    CreateAndEnrich Mock.claude Mock.idea w0
    = (Val (None, None, Some (DuplicateError 1 "same feature")), w') /\
    db w' = db w0.
Proof.
  intros w0.
  set (allow := RateLimiter_Allow (in_TelegramUserID Mock.idea)
                  (emit (EvLog (log_called Mock.idea)) w0)).
  set (fetch := IdeaRepository_ListSummaries (emit (EvLog log_checking) allow.2)).
  set (existing := [mkIdeaSummary 1 EmptyString "dark theme for the console"]).
  set (check := ClaudeService_CheckDuplicate Mock.claude
                  (in_RawText Mock.idea) existing fetch.2).
  set (r := mkDuplicateResult true 1 "same feature").
  assert (Hallow : allow = (Val true, allow.2)) by evaluate.
  assert (Hfetch : fetch = (Val (existing, None), fetch.2)) by evaluate.
  assert (Hcheck : check = (Val (Some r, None), check.2)) by evaluate.
  destruct (CreateAndEnrich_duplicate Mock.claude Mock.idea w0 fetch.2 check.2
              existing r (ex_intro _ allow.2 (conj Hallow Hfetch)) Hcheck
              eq_refl)
    as (w' & Hrun & _ & Hdb & _).
  exists w'. split; assumption.
Defined.

(** The window cannot be fetched: the first call on the handle fails. *)
Lemma CreateAndEnrich_fetch_failure_witness :
  let w0 := Mock.start [0%nat] [Mock.text_reply "payload"]
              [Mock.row 1 "dark theme for the console" "new"] in
  exists evs,
    trace (CreateAndEnrich Mock.claude Mock.idea w0).2
    = (evs ++ [EvSql (Exec_InsertIdea Mock.idea); EvLog log_no_duplicates;
               EvLog (log_fetch_failed (errorString "disk I/O error"));
               EvSql Query_Summaries; EvLog log_checking;
               EvLog (log_called Mock.idea)])%list.
Proof.
  intros w0.
  set (allow := RateLimiter_Allow (in_TelegramUserID Mock.idea)
                  (emit (EvLog (log_called Mock.idea)) w0)).
  set (fetch := IdeaRepository_ListSummaries (emit (EvLog log_checking) allow.2)).
  set (err := errorString "disk I/O error").
  assert (Hallow : allow = (Val true, allow.2)) by evaluate.
  assert (Hfetch : fetch = (Val ([], Some err), fetch.2)) by evaluate.
  assert (Htrace : trace fetch.2
                   = [EvSql Query_Summaries; EvLog log_checking;
                      EvLog (log_called Mock.idea)]) by evaluate.
  destruct (CreateAndEnrich_fetch_failure Mock.claude Mock.idea w0 fetch.2 []
              err (ex_intro _ allow.2 (conj Hallow Hfetch)))
    as (_ & _ & Hevs & _).
  rewrite Htrace in Hevs. exact Hevs.
Defined.

(** The first stages of a submission to an empty table: admitted, an empty
    window, the record created, the model asked for the enrichment. *)
Ltac first_submission w0 :=
  set (allow := RateLimiter_Allow (in_TelegramUserID Mock.idea)
                  (emit (EvLog (log_called Mock.idea)) w0));
  set (fetch := IdeaRepository_ListSummaries
                  (emit (EvLog log_checking) allow.2));
  set (create := IdeaRepository_Create Mock.idea
                   (emit (EvLog log_no_duplicates) fetch.2));
  set (enrich := ClaudeService_EnrichIdea Mock.claude (in_RawText Mock.idea)
                   (display_name Mock.idea)
                   (emit (EvLog (log_calling (ID Mock.first_record)))
                      (emit (EvLog (log_created (ID Mock.first_record))) create.2)));
  assert (Hallow : allow = (Val true, allow.2)) by evaluate;
  assert (Hfetch : fetch = (Val ([], None), fetch.2)) by evaluate;
  assert (Hcreate : create = (Val (Some Mock.first_record, None), create.2))
    by evaluate;
  assert (Hreach : reaches_create Mock.claude Mock.idea w0 fetch.2)
    by (exists ([], None), fetch.2;
        split; [exists allow.2; split; assumption|];
        right; left; repeat split).

(** The model is down when the record of an empty table is enriched. *)
Lemma CreateAndEnrich_enrichment_failed_witness :
  let w0 := Mock.start [] [Mock.api_down] [] in
  exists w',
    CreateAndEnrich Mock.claude Mock.idea w0
    = (Val (Some Mock.first_record, None, None), w') /\
    exists r, select_by_id 1 (db w') = Some r /\
              c_status r = StatusNew /\ c_enriched_json r = EmptyString.
Proof.
  intros w0. first_submission w0.
  set (err := fmt_Errorf_w "claude API error: "
                (errorString "connection refused") EmptyString).
  assert (Henrich : enrich = (Val (None, Some err), enrich.2)) by evaluate.
  destruct (CreateAndEnrich_enrichment_failed Mock.claude Mock.idea w0 fetch.2
              enrich.2 Mock.first_record None err Hreach
              (ex_intro _ create.2 (conj Hcreate Henrich)))
    as (w' & Hrun & _ & _ & _ & r & Hsel & _ & Hrs & Hrj & _).
  exists w'. split; [exact Hrun|]. exists r. repeat split; assumption.
Defined.

(** The UPDATE that saves the payload fails. *)
Lemma CreateAndEnrich_persist_failed_witness :
  let w0 := Mock.start [5%nat] [Mock.text_reply "payload"] [] in
  exists refreshed w',
    CreateAndEnrich Mock.claude Mock.idea w0
    = (Val (refreshed, Some Mock.dark_mode, None), w').
Proof.
  intros w0. first_submission w0.
  set (update := IdeaRepository_UpdateEnriched (ID Mock.first_record) Mock.dark_mode
                   (emit (EvLog (log_enriched (ID Mock.first_record))) enrich.2)).
  set (err := errorString "disk I/O error").
  assert (Henrich : enrich = (Val (Some Mock.dark_mode, None), enrich.2))
    by evaluate.
  assert (Hupdate : update = (Val (Some err), update.2)) by evaluate.
  destruct (CreateAndEnrich_persist_failed Mock.claude Mock.idea w0 fetch.2
              enrich.2 update.2 Mock.first_record Mock.dark_mode err Hreach
              (ex_intro _ create.2 (conj Hcreate Henrich)) Hupdate)
    as (refreshed & w' & Hrun & _).
  exists refreshed, w'. exact Hrun.
Defined.

(** The payload is saved and the read that follows fails. *)
Lemma CreateAndEnrich_reread_failed_witness :
  let w0 := Mock.start [6%nat] [Mock.text_reply "payload"] [] in
  (CreateAndEnrich Mock.claude Mock.idea w0).1
  = Val (None, Some Mock.dark_mode, None) /\
  classify (None, Some Mock.dark_mode, None) = Panic nil_dereference.
Proof.
  intros w0. first_submission w0.
  set (update := IdeaRepository_UpdateEnriched (ID Mock.first_record) Mock.dark_mode
                   (emit (EvLog (log_enriched (ID Mock.first_record))) enrich.2)).
  set (reread := IdeaRepository_GetByID (ID Mock.first_record) update.2).
  set (err := errorString "disk I/O error").
  assert (Henrich : enrich = (Val (Some Mock.dark_mode, None), enrich.2))
    by evaluate.
  assert (Hupdate : update = (Val None, update.2)) by evaluate.
  assert (Hreread : reread = (Val (None, Some err), reread.2)) by evaluate.
  destruct (CreateAndEnrich_reread_failed Mock.claude Mock.idea w0 fetch.2
              enrich.2 update.2 reread.2 Mock.first_record Mock.dark_mode None err
              Hreach (ex_intro _ create.2 (conj Hcreate Henrich)) Hupdate
              Hreread)
    as (Hrun & Hpanic).
  split; [rewrite Hrun; reflexivity | exact Hpanic].
Defined.

(** The model answers the duplicate check with a text that is no JSON. *)
Lemma CheckDuplicate_degrades_witness :
  (ClaudeService_CheckDuplicate Mock.claude "add dark mode toggle"
     [mkIdeaSummary 1 EmptyString "dark theme for the console"]
     (Mock.start [] [Mock.text_reply "garbage"] [])).1
  = Val (Some not_duplicate, None).
Proof.
  apply (CheckDuplicate_degrades Mock.claude _ _ _
           (mkMessage [mkBlock "text" "garbage"])).
  - evaluate.
  - right. vm_compute. discriminate.
Defined.

(** * Further properties *)

(** ** The rate limiter, beyond the admission rule *)

(** A bucket created on first sight holds a token, whatever the clock
    says, as soon as the hourly quota is not zero: a quota that is negative
    or above one token per nanosecond means no limit at all. *)
Lemma fresh_bucket_available (t p : Z) :
  p <> 0 -> rate.available t (rate.NewLimiter (hourly p) p) = true.
Proof.
  intros Hp. unfold hourly, rate.Every.
  destruct (rate.Hour ÷ p <=? 0) eqn:Hq; [reflexivity|].
  apply Z.leb_gt in Hq.
  assert (0 < p).
  { destruct (Z.lt_trichotomy p 0) as [Hneg | [H0 | Hpos]]; [|lia|lia].
    exfalso.
    pose proof (Z.quot_pos rate.Hour (- p) ltac:(unfold rate.Hour; lia)
                  ltac:(lia)) as Hnn.
    rewrite Z.quot_opp_r in Hnn by lia. lia. }
  unfold rate.available, rate.advance, rate.NewLimiter. simpl.
  apply andb_true_iff. split; [apply Z.leb_le; lia|].
  apply Z.leb_le. destruct (t <? 0) eqn:Ht.
  - replace (t - t) with 0 by lia. rewrite Z.add_0_r, Z.min_id. nia.
  - apply Z.ltb_ge in Ht. rewrite Z.min_l by lia. nia.
Qed.

(** X1. A call of [Allow] for one submitter leaves the bucket of every
    other submitter, and the per-user quota, as they were. *)
Theorem Allow_other_submitters_untouched (userID other : Z) (w w' : World)
    (r : Res bool) :
  RateLimiter_Allow userID w = (r, w') ->
  other <> userID ->
  userLimits (rateLimiter w') !! other = userLimits (rateLimiter w) !! other /\
  perUser (rateLimiter w') = perUser (rateLimiter w).
Proof.
  intros Hrun Hne.
  destruct (rate.available (clock (env w) (ticks w))
              (globalLimit (rateLimiter w))) eqn:Hav.
  - destruct (userLimits (rateLimiter w) !! userID) as [u|] eqn:Hu.
    + rewrite (Allow_known_user _ _ u Hav Hu) in Hrun.
      injection Hrun as _ <-. simpl. split; [|reflexivity].
      rewrite lookup_insert_ne by congruence. reflexivity.
    + destruct (decide (perUser (rateLimiter w) = 0)) as [Hp|Hp].
      * rewrite (Allow_new_user_panic _ _ Hav Hu Hp) in Hrun.
        injection Hrun as _ <-. split; reflexivity.
      * rewrite (Allow_new_user _ _ Hav Hu Hp) in Hrun.
        injection Hrun as _ <-. simpl. split; [|reflexivity].
        rewrite !lookup_insert_ne by congruence. reflexivity.
  - rewrite (Allow_global_empty _ _ Hav) in Hrun.
    injection Hrun as _ <-. split; reflexivity.
Qed.

Lemma Allow_other_submitters_untouched_witness :
  let w0 := Mock.world (Mock.environment [] []) (Mock.limiter 1 50) [] in
  let w1 := (RateLimiter_Allow 7 w0).2 in
  userLimits (rateLimiter (RateLimiter_Allow 8 w1).2) !! 7
  = userLimits (rateLimiter w1) !! 7.
Proof.
  intros w0 w1.
  apply (Allow_other_submitters_untouched 8 7 w1 _ _ (surjective_pairing _)).
  discriminate.
Defined.

(** X2. A submitter without a bucket (never seen, or forgotten by
    [Cleanup]) is admitted exactly when the global bucket holds a token,
    provided the per-user quota is not zero. *)
Theorem Allow_first_sight (userID : Z) (w : World) :
  userLimits (rateLimiter w) !! userID = None ->
  perUser (rateLimiter w) <> 0 ->
  (RateLimiter_Allow userID w).1
  = Val (rate.available (clock (env w) (ticks w))
           (globalLimit (rateLimiter w))).
Proof.
  intros Hu Hp.
  destruct (rate.available (clock (env w) (ticks w))
              (globalLimit (rateLimiter w))) eqn:Hav.
  - rewrite (Allow_new_user _ _ Hav Hu Hp). simpl.
    rewrite fresh_bucket_available by exact Hp. reflexivity.
  - rewrite (Allow_global_empty _ _ Hav). reflexivity.
Qed.

Lemma Allow_first_sight_witness :
  (RateLimiter_Allow 7
     (Mock.world (Mock.environment [] []) (Mock.limiter (-3) 50) [])).1
  = Val true.
Proof.
  rewrite Allow_first_sight; [vm_compute; reflexivity | reflexivity |].
  vm_compute. discriminate.
Defined.

(** X3. [Allow] panics, by a division by zero, exactly when the global
    bucket grants the request, the submitter has no bucket yet and the
    per-user quota is zero; the global token is lost in the panic.
    [NewRateLimiter] panics exactly when the global quota is zero. *)
Theorem Allow_panics_iff (userID : Z) (w : World) :
  let rl := rateLimiter w in
  let granted :=
    rate.available (clock (env w) (ticks w)) (globalLimit rl) = true in
  ((exists msg, (RateLimiter_Allow userID w).1 = Panic msg) <->
   granted /\ userLimits rl !! userID = None /\ perUser rl = 0) /\
  (forall msg, (RateLimiter_Allow userID w).1 = Panic msg ->
     msg = divide_by_zero /\
     globalLimit (rateLimiter (RateLimiter_Allow userID w).2)
     = (rate.AllowN (clock (env w) (ticks w)) 1 (globalLimit rl)).2) /\
  (forall perUser global,
     (exists msg, NewRateLimiter perUser global = Panic msg) <-> global = 0).
Proof.
  intros rl granted. subst granted.
  assert (Hcases :
    (rate.available (clock (env w) (ticks w)) (globalLimit rl) = true /\
     userLimits rl !! userID = None /\ perUser rl = 0 /\
     RateLimiter_Allow userID w
     = (Panic divide_by_zero,
        after_readings 1
          (set_globalLimit
             (rate.AllowN (clock (env w) (ticks w)) 1 (globalLimit rl)).2 rl)
          w)) \/
    (~ (rate.available (clock (env w) (ticks w)) (globalLimit rl) = true /\
        userLimits rl !! userID = None /\ perUser rl = 0) /\
     exists b, (RateLimiter_Allow userID w).1 = Val b)).
  { destruct (rate.available (clock (env w) (ticks w)) (globalLimit rl))
      eqn:Hav.
    - destruct (userLimits rl !! userID) as [u|] eqn:Hu.
      + right. split; [intros (_ & [=] & _)|].
        rewrite (Allow_known_user _ _ u Hav Hu). eauto.
      + destruct (decide (perUser rl = 0)) as [Hp|Hp].
        * left. repeat split; try assumption.
          apply (Allow_new_user_panic _ _ Hav Hu Hp).
        * right. split; [intros (_ & _ & ?); contradiction|].
          rewrite (Allow_new_user _ _ Hav Hu Hp). eauto.
    - right. split; [intros ([=] & _)|].
      rewrite (Allow_global_empty _ _ Hav). eauto. }
  split; [|split].
  - destruct Hcases as [(Hg & Hu & Hp & Hrun) | (Hno & b & Hb)].
    + rewrite Hrun. simpl. split; [auto | eauto].
    + rewrite Hb. split; [intros [msg [=]] | intros H; contradiction].
  - intros msg Hmsg.
    destruct Hcases as [(Hg & Hu & Hp & Hrun) | (Hno & b & Hb)].
    + rewrite Hrun in *. simpl in *. injection Hmsg as <-. split; reflexivity.
    + rewrite Hb in Hmsg. discriminate.
  - intros p g. unfold NewRateLimiter. destruct (g =? 0) eqn:Hg.
    + apply Z.eqb_eq in Hg. split; [auto | eauto].
    + apply Z.eqb_neq in Hg. split; [intros [msg [=]] | contradiction].
Qed.

(** X4. [Cleanup] forgets every per-user bucket and nothing else: right
    after it any submitter is admitted exactly when the global bucket holds
    a token (the per-user quota not being zero), whatever they used
    before. *)
Theorem Cleanup_forgives (userID : Z) (w : World) :
  perUser (rateLimiter w) <> 0 ->
  let cleaned := (RateLimiter_Cleanup w).2 in
  (RateLimiter_Cleanup w).1 = Val tt /\
  globalLimit (rateLimiter cleaned) = globalLimit (rateLimiter w) /\
  db cleaned = db w /\ trace cleaned = trace w /\
  (RateLimiter_Allow userID cleaned).1
  = Val (rate.available (clock (env w) (ticks w))
           (globalLimit (rateLimiter w))).
Proof.
  intros Hp cleaned. repeat split.
  assert (Hu : userLimits (rateLimiter cleaned) !! userID = None)
    by apply lookup_empty.
  change (rate.available (clock (env w) (ticks w)) (globalLimit (rateLimiter w)))
    with (rate.available (clock (env cleaned) (ticks cleaned))
            (globalLimit (rateLimiter cleaned))).
  destruct (rate.available (clock (env cleaned) (ticks cleaned))
              (globalLimit (rateLimiter cleaned))) eqn:Hav.
  - rewrite (Allow_new_user _ _ Hav Hu Hp). simpl.
    rewrite fresh_bucket_available by exact Hp. reflexivity.
  - rewrite (Allow_global_empty _ _ Hav). reflexivity.
Qed.

Lemma Cleanup_forgives_witness :
  let w0 := Mock.world (Mock.environment [] []) (Mock.limiter 1 50) [] in
  let w1 := (RateLimiter_Allow 7 w0).2 in
  (RateLimiter_Allow 7 w1).1 = Val false /\
  (RateLimiter_Allow 7 (RateLimiter_Cleanup w1).2).1 = Val true.
Proof.
  intros w0 w1. split; [vm_compute; reflexivity|].
  destruct (Cleanup_forgives 7 w1 ltac:(vm_compute; discriminate))
    as (_ & _ & _ & _ & Hallow).
  rewrite Hallow. vm_compute. reflexivity.
Defined.

(** ** The repository, beyond the pipeline *)

Section Repository.
Context {json : JSON}.

Lemma select_by_id_Some id d r :
  select_by_id id d = Some r -> c_id r = id /\ r ∈ ideas d.
Proof.
  unfold select_by_id. induction (ideas d) as [|r' rows IH]; simpl;
    [discriminate|].
  destruct (c_id r' =? id) eqn:E.
  - intros [= <-]. split; [lia | left].
  - intros H. destruct (IH H). split; [assumption | right; assumption].
Qed.

Lemma select_by_id_None id d r :
  select_by_id id d = None -> r ∈ ideas d -> c_id r <> id.
Proof.
  unfold select_by_id. induction (ideas d) as [|r' rows IH]; simpl.
  - intros _ Hin. inversion Hin.
  - destruct (c_id r' =? id) eqn:E; [discriminate|].
    intros H Hin. apply elem_of_cons in Hin as [-> | Hin]; [lia | auto].
Qed.

(** X5. [GetByID] on an id the table does not hold returns a nil idea and
    [sql.ErrNoRows] when the handle works, and never changes the table. *)
Theorem GetByID_missing (id : Z) (w : World) :
  select_by_id id (db w) = None ->
  sql_fault (env w) (sql_calls w) = None ->
  (IdeaRepository_GetByID id w).1 = Val (None, Some sql_ErrNoRows) /\
  db (IdeaRepository_GetByID id w).2 = db w.
Proof.
  intros Hsel Hok.
  unfold IdeaRepository_GetByID, bind, sql_call, ret, get_db. simpl.
  rewrite Hok. simpl. rewrite Hsel. split; reflexivity.
Qed.

(** X6. Reading back what [Create] returned: when the handle works,
    [GetByID] on the id of the created idea returns that same idea. *)
Theorem Create_then_GetByID (input : CreateIdeaInput) (w w1 : World)
    (idea : Idea) :
  IdeaRepository_Create input w = (Val (Some idea, None), w1) ->
  sql_fault (env w1) (sql_calls w1) = None ->
  (IdeaRepository_GetByID (ID idea) w1).1 = Val (Some idea, None).
Proof.
  intros Hcreate Hok.
  apply Create_success in Hcreate as (r & Hsel & -> & _).
  rewrite idea_of_row_ID in *.
  unfold IdeaRepository_GetByID, bind, sql_call, ret, get_db. simpl.
  rewrite Hok. simpl. rewrite Hsel. reflexivity.
Qed.

(** X7. [Create] hands out an id that no row of the table has, so ids stay
    pairwise distinct; the rows that were there are kept as they were,
    whether the call succeeds or not. *)
Theorem Create_keeps_ids_unique (input : CreateIdeaInput) (w w' : World)
    (r : Res (option Idea * option error)) :
  IdeaRepository_Create input w = (r, w') ->
  unique_ids (db w) ->
  unique_ids (db w') /\
  (ideas (db w') = ideas (db w) \/
   exists row, ideas (db w') = row :: ideas (db w) /\
               c_id row = next_id (db w) /\ c_status row = StatusNew /\
               c_raw_text row = in_RawText input) /\
  exists v, r = Val v.
Proof.
  intros Hrun Huniq.
  assert (Hins : unique_ids (insert_idea input (clock (env w) (ticks w))
                               (db w)).2).
  { unfold unique_ids, insert_idea. simpl. apply NoDup_cons. split; [|exact Huniq].
    intros Hin. apply list_elem_of_fmap in Hin as (r' & Heq & Hin).
    apply next_id_fresh in Hin. lia. }
  revert Hrun.
  unfold IdeaRepository_Create, bind, sql_call, ret, get_db, put_db,
    time_Now. simpl.
  destruct (sql_fault (env w) (sql_calls w)); simpl.
  { intros [= <- <-]. split; [exact Huniq|]. split; [left; reflexivity | eauto]. }
  destruct (sql_fault (env w) (S (sql_calls w))); simpl.
  { intros [= <- <-]. split; [exact Hins|].
    split; [right; eexists; repeat split | eauto]. }
  intros Hget.
  destruct (GetByID_returns (next_id (db w))
              (set_db (insert_idea input (clock (env w) (ticks w)) (db w)).2
                 {| env := env w; ticks := S (ticks w);
                    sql_calls := S (S (sql_calls w));
                    api_calls := api_calls w; db := db w;
                    rateLimiter := rateLimiter w;
                    trace := EvSql Result_LastInsertId
                             :: EvSql (Exec_InsertIdea input) :: trace w |}))
    as (v & w2 & Hv & Hdb).
  unfold set_db in Hv. simpl in Hv, Hget. rewrite Hv in Hget.
  injection Hget as <- <-. rewrite Hdb. simpl.
  split; [exact Hins|]. split; [right; eexists; repeat split | eauto].
Qed.

(** X8. [Create] is not atomic with its read-back: when the INSERT
    succeeds and [LastInsertId] or the read that follows fails, [Create]
    returns an error although the new row, with status [new], is in the
    table. *)
Theorem Create_error_after_insert (input : CreateIdeaInput) (w w' : World)
    (err : error) :
  IdeaRepository_Create input w = (Val (None, Some err), w') ->
  sql_fault (env w) (sql_calls w) = None ->
  exists row,
    ideas (db w') = row :: ideas (db w) /\ c_status row = StatusNew /\
    c_raw_text row = in_RawText input /\
    select_by_id (c_id row) (db w') = Some row.
Proof.
  intros Hrun Hok. revert Hrun.
  unfold IdeaRepository_Create, bind, sql_call, ret, get_db, put_db,
    time_Now. simpl. rewrite Hok. simpl.
  destruct (sql_fault (env w) (S (sql_calls w))); simpl.
  { intros [= _ <-]. eexists. repeat split.
    unfold select_by_id. simpl. rewrite Z.eqb_refl. reflexivity. }
  intros Hget.
  destruct (GetByID_returns (next_id (db w))
              (set_db (insert_idea input (clock (env w) (ticks w)) (db w)).2
                 {| env := env w; ticks := S (ticks w);
                    sql_calls := S (S (sql_calls w));
                    api_calls := api_calls w; db := db w;
                    rateLimiter := rateLimiter w;
                    trace := EvSql Result_LastInsertId
                             :: EvSql (Exec_InsertIdea input) :: trace w |}))
    as (v & w2 & Hv & Hdb).
  unfold set_db in Hv. simpl in Hv, Hget. rewrite Hv in Hget.
  injection Hget as _ <-. rewrite Hdb. simpl.
  eexists. repeat split.
  unfold select_by_id. simpl. rewrite Z.eqb_refl. reflexivity.
Qed.

End Repository.

Lemma GetByID_missing_witness :
  (IdeaRepository_GetByID 9
     (Mock.start [] [] [Mock.row 1 "dark theme" "new"])).1
  = Val (None, Some sql_ErrNoRows).
Proof.
  apply (GetByID_missing 9 (Mock.start [] [] [Mock.row 1 "dark theme" "new"]));
    reflexivity.
Defined.

Lemma Create_then_GetByID_witness :
  let created := IdeaRepository_Create Mock.idea (Mock.start [] [] []) in
  (IdeaRepository_GetByID 1 created.2).1
  = Val (Some (mkIdea 1 100 200 7 "ann" "Ann" "add dark mode toggle"
                 EmptyString None EmptyString EmptyString EmptyString
                 EmptyString [] "new" EmptyString 0 0), None).
Proof.
  intros created.
  apply (Create_then_GetByID Mock.idea (Mock.start [] [] []) created.2
           (mkIdea 1 100 200 7 "ann" "Ann" "add dark mode toggle"
              EmptyString None EmptyString EmptyString EmptyString
              EmptyString [] "new" EmptyString 0 0));
    vm_compute; reflexivity.
Defined.

Lemma Create_keeps_ids_unique_witness :
  let w0 := Mock.start [] [] [Mock.row 4 "dark theme" "new"] in
  unique_ids (db (IdeaRepository_Create Mock.idea w0).2).
Proof.
  intros w0.
  apply (Create_keeps_ids_unique Mock.idea w0 _ _ (surjective_pairing _)).
  vm_compute. repeat constructor. inversion 1.
Defined.

Lemma Create_error_after_insert_witness :
  let w0 := Mock.start [1%nat] [] [] in
  (IdeaRepository_Create Mock.idea w0).1
  = Val (None, Some (errorString "disk I/O error")) /\
  exists row, ideas (db (IdeaRepository_Create Mock.idea w0).2) = [row] /\
              c_status row = StatusNew.
Proof.
  intros w0. split; [vm_compute; reflexivity|].
  destruct (Create_error_after_insert Mock.idea w0 _
              (errorString "disk I/O error")
              ltac:(vm_compute; reflexivity) eq_refl)
    as (row & Hrows & Hst & _).
  exists row. split; [exact Hrows | exact Hst].
Defined.

Section Repository_updates.
Context {json : JSON}.

(** The row [UPDATE ... WHERE id = ?] makes of a row it matches. *)
Lemma select_by_id_update id ej ti ca pr co af now d r :
  select_by_id id d = Some r ->
  select_by_id id (update_enriched id ej ti ca pr co af now d)
  = Some (mkRow (c_id r) (c_telegram_message_id r) (c_telegram_chat_id r)
            (c_telegram_user_id r) (c_telegram_username r)
            (c_telegram_first_name r) (c_raw_text r) ej ti ca pr co af
            (c_status r) (c_admin_notes r) (c_created_at r) now).
Proof.
  unfold select_by_id, update_enriched. simpl.
  induction (ideas d) as [|r' rows IH]; simpl; [discriminate|].
  destruct (c_id r' =? id) eqn:E; simpl.
  - rewrite E. intros [= <-]. reflexivity.
  - rewrite E. exact IH.
Qed.

Lemma select_by_id_update_other id id' ej ti ca pr co af now d :
  id' <> id ->
  select_by_id id' (update_enriched id ej ti ca pr co af now d)
  = select_by_id id' d.
Proof.
  intros Hne. unfold select_by_id, update_enriched. simpl.
  induction (ideas d) as [|r' rows IH]; simpl; [reflexivity|].
  destruct (c_id r' =? id) eqn:E; simpl.
  - destruct (c_id r' =? id') eqn:E'; [lia | exact IH].
  - destruct (c_id r' =? id'); [reflexivity | exact IH].
Qed.

Lemma update_enriched_missing id ej ti ca pr co af now d :
  select_by_id id d = None ->
  update_enriched id ej ti ca pr co af now d = d.
Proof.
  intros Hsel. destruct d as [rows sq]. unfold update_enriched. simpl. f_equal.
  unfold select_by_id in Hsel. simpl in Hsel.
  induction rows as [|r' rows IH]; simpl in *; [reflexivity|].
  destruct (c_id r' =? id); [discriminate|]. rewrite IH by exact Hsel.
  reflexivity.
Qed.

(** A successful [UpdateEnriched], column by column. *)
Lemma UpdateEnriched_saved id e w w1 :
  IdeaRepository_UpdateEnriched id e w = (Val None, w1) ->
  exists ej af,
    Marshal_EnrichedIdea e = inl ej /\
    Marshal_strings (e_AffectedComponents e) = inl af /\
    db w1 = update_enriched id ej (e_Title e) (e_Category e) (e_Priority e)
              (e_Complexity e) af (clock (env w) (ticks w)) (db w) /\
    env w1 = env w /\ sql_calls w1 = S (sql_calls w).
Proof.
  unfold IdeaRepository_UpdateEnriched, bind, sql_call, ret, get_db, put_db,
    time_Now.
  destruct (Marshal_EnrichedIdea e) as [ej|]; [|discriminate].
  destruct (Marshal_strings _) as [af|]; [|discriminate].
  simpl. destruct (sql_fault (env w) (sql_calls w)); simpl; [discriminate|].
  intros [= <-]. exists ej, af. repeat split.
Qed.

(** X9. Saving a payload and reading the record back: after a successful
    [UpdateEnriched] on a row of the table, [GetByID] returns the idea with
    the title, category, priority and complexity of the payload and the
    marshalled text, its status and raw text unchanged; when the text
    decodes back to the payload, the idea carries that payload. *)
Theorem UpdateEnriched_then_GetByID (id : Z) (e : EnrichedIdea)
    (w w1 : World) (r0 : Row) :
  select_by_id id (db w) = Some r0 ->
  IdeaRepository_UpdateEnriched id e w = (Val None, w1) ->
  sql_fault (env w1) (sql_calls w1) = None ->
  exists text idea,
    Marshal_EnrichedIdea e = inl text /\
    (IdeaRepository_GetByID id w1).1 = Val (Some idea, None) /\
    ID idea = id /\ Title idea = e_Title e /\ Category idea = e_Category e /\
    Priority idea = e_Priority e /\ Complexity idea = e_Complexity e /\
    EnrichedJSON idea = text /\ Status idea = c_status r0 /\
    RawText idea = c_raw_text r0 /\
    (text <> EmptyString ->
     Unmarshal_EnrichedIdea text EnrichedIdea_zero = (e, None) ->
     Enriched idea = Some e).
Proof.
  intros Hsel Hupd Hok.
  apply UpdateEnriched_saved in Hupd as (ej & af & Hej & Haf & Hdb & _ & _).
  pose proof (select_by_id_update id ej (e_Title e) (e_Category e)
                (e_Priority e) (e_Complexity e) af (clock (env w) (ticks w))
                (db w) r0 Hsel) as Hnew.
  rewrite <- Hdb in Hnew.
  exists ej. eexists. split; [exact Hej|]. split.
  { unfold IdeaRepository_GetByID, bind, sql_call, ret, get_db. simpl.
    rewrite Hok. simpl. rewrite Hnew. reflexivity. }
  apply select_by_id_Some in Hsel as [Hid _].
  unfold idea_of_row, ParseEnriched. simpl.
  destruct (is_empty ej) eqn:Hempty; simpl; repeat split; try assumption.
  - intros Hne. destruct ej; [contradiction | discriminate].
  - intros _ Hround. rewrite Hround. reflexivity.
Qed.

(** X10. [UpdateEnriched] on an id the table does not hold is silent: it
    returns a nil error and changes no row.  On an id it holds, every row
    with another id reads back as before. *)
Theorem UpdateEnriched_only_that_row (id : Z) (e : EnrichedIdea)
    (w w1 : World) :
  IdeaRepository_UpdateEnriched id e w = (Val None, w1) ->
  (select_by_id id (db w) = None -> db w1 = db w) /\
  (forall id', id' <> id ->
     select_by_id id' (db w1) = select_by_id id' (db w)).
Proof.
  intros Hupd.
  apply UpdateEnriched_saved in Hupd as (ej & af & _ & _ & Hdb & _ & _).
  rewrite Hdb. split.
  - apply update_enriched_missing.
  - intros id' Hne. apply select_by_id_update_other. exact Hne.
Qed.

End Repository_updates.

Lemma UpdateEnriched_then_GetByID_witness :
  let w0 := Mock.start [] [] [Mock.row 1 "dark theme" "reviewed"] in
  let w1 := (IdeaRepository_UpdateEnriched 1 Mock.dark_mode w0).2 in
  exists idea,
    (IdeaRepository_GetByID 1 w1).1 = Val (Some idea, None) /\
    Title idea = "Dark mode toggle" /\ Status idea = "reviewed" /\
    Enriched idea = Some Mock.dark_mode.
Proof.
  intros w0 w1.
  assert (Hsel : select_by_id 1 (db w0)
                 = Some (Mock.row 1 "dark theme" "reviewed"))
    by (vm_compute; reflexivity).
  assert (Hupd : IdeaRepository_UpdateEnriched 1 Mock.dark_mode w0
                 = (Val None, w1)) by (vm_compute; reflexivity).
  assert (Hok : sql_fault (env w1) (sql_calls w1) = None)
    by (vm_compute; reflexivity).
  destruct (UpdateEnriched_then_GetByID 1 Mock.dark_mode w0 w1 _ Hsel Hupd Hok)
    as (text & idea & Htext & Hget & _ & Hti & _ & _ & _ & _ & Hst & _ & Hen).
  exists idea. split; [exact Hget|]. split; [exact Hti|]. split; [exact Hst|].
  injection Htext as <-. apply Hen; [discriminate | reflexivity].
Defined.

Lemma UpdateEnriched_only_that_row_witness :
  let w0 := Mock.start [] [] [Mock.row 1 "dark theme" "new"] in
  let run := IdeaRepository_UpdateEnriched 9 Mock.dark_mode w0 in
  run.1 = Val None /\ db run.2 = db w0.
Proof.
  intros w0 run. split; [vm_compute; reflexivity|].
  assert (Hupd : run = (Val None, run.2)) by (vm_compute; reflexivity).
  apply (UpdateEnriched_only_that_row 9 Mock.dark_mode w0 run.2 Hupd).
  vm_compute. reflexivity.
Defined.

Section Repository_reads.
Context {json : JSON}.







(** X12. [GetByID] swallows decoding errors: for a row whose enriched JSON
    is not empty the idea it returns carries a non-nil [Enriched], the
    value [json.Unmarshal] left behind, and a nil error, also when the
    decoding failed.  For an empty enriched JSON, [Enriched] is nil. *)
Theorem GetByID_ignores_decode_errors (id : Z) (w : World) (r : Row) :
  select_by_id id (db w) = Some r ->
  sql_fault (env w) (sql_calls w) = None ->
  exists idea,
    (IdeaRepository_GetByID id w).1 = Val (Some idea, None) /\
    Enriched idea
    = if is_empty (c_enriched_json r) then None
      else Some (Unmarshal_EnrichedIdea (c_enriched_json r)
                   EnrichedIdea_zero).1.
Proof.
  intros Hsel Hok. exists (idea_of_row r). split.
  - unfold IdeaRepository_GetByID, bind, sql_call, ret, get_db. simpl.
    rewrite Hok. simpl. rewrite Hsel. reflexivity.
  - unfold idea_of_row, ParseEnriched. simpl.
    destruct (is_empty (c_enriched_json r)); reflexivity.
Qed.

End Repository_reads.


Lemma GetByID_ignores_decode_errors_witness :
  let corrupt :=
    mkRow 1 100 200 7 "ann" "Ann" "dark theme" "{broken" EmptyString
      EmptyString EmptyString EmptyString EmptyString "new" EmptyString 0 0 in
  exists idea,
    (IdeaRepository_GetByID 1 (Mock.start [] [] [corrupt])).1
    = Val (Some idea, None) /\
    Enriched idea = Some EnrichedIdea_zero.
Proof.
  intros corrupt.
  destruct (GetByID_ignores_decode_errors 1 (Mock.start [] [] [corrupt])
              corrupt eq_refl eq_refl) as (idea & Hget & Hen).
  exists idea. split; [exact Hget | rewrite Hen; reflexivity].
Defined.

(** ** The pipeline, beyond the claims *)

Section Intake_more.
Context {json : JSON} {prompts : Prompts}.
Variable s : ClaudeService.

(** X13. When the call of the model for the duplicate check fails, the
    failure is logged and the submission goes on to the creation of the
    record: the duplicate check never blocks intake.  Nothing was written
    before, and the next call on the database handle is the INSERT. *)
Theorem CreateAndEnrich_check_failure (input : CreateIdeaInput)
    (w0 w2 : World) (existing : list IdeaSummary) (err : error) :
  fetches input w0 (existing, None) w2 ->
  existing <> [] ->
  api_reply (env w2) (api_calls w2)
    (duplicateParams s (in_RawText input) existing) = inr err ->
  let failure := fmt_Errorf_w "claude API error: " err EmptyString in
  exists w,
    CreateAndEnrich s input w0 = CreateAndEnrich_create s input w /\
    trace w
    = EvLog (log_check_failed failure)
      :: EvApi (duplicateParams s (in_RawText input) existing) :: trace w2 /\
    reads_only (fun e => negb (is_write e)) w0 w /\
    exists evs,
      trace (CreateAndEnrich s input w0).2
      = (evs ++ EvSql (Exec_InsertIdea input) :: EvLog log_no_duplicates
             :: trace w)%list.
Proof.
  intros Hfetch Hne Hreply failure.
  destruct existing as [|i rest]; [contradiction|].
  set (w3 := (client_Messages_New
                (duplicateParams s (in_RawText input) (i :: rest)) w2).2).
  assert (Hdup : ClaudeService_CheckDuplicate s (in_RawText input) (i :: rest) w2
                 = (Val (None, Some failure), w3)).
  { unfold ClaudeService_CheckDuplicate, bind, client_Messages_New, ret.
    simpl. rewrite Hreply. reflexivity. }
  assert (Hreach : reaches_create s input w0
                     (emit (EvLog (log_check_failed failure)) w3)).
  { exists (i :: rest, None), w2. split; [exact Hfetch|]. right. right.
    split; [reflexivity|]. split; [discriminate|].
    exists (None, Some failure), w3. split; [exact Hdup|]. left.
    exists failure. split; reflexivity. }
  exists (emit (EvLog (log_check_failed failure)) w3).
  pose proof (reaches_create_run s _ _ _ Hreach) as Hrun.
  split; [exact Hrun|]. split; [reflexivity|].
  split; [apply (reaches_create_quiet s _ _ _ Hreach)|].
  rewrite Hrun. apply (create_sends_insert s input _ _ _ (surjective_pairing _)).
Qed.

(** X14. When [Create] returns an error the submission fails with that
    error wrapped as "failed to create idea: ...", neither enrichment nor
    any other call of the model follows, and the caller shows it as a fatal
    error, unless the text of the error contains "rate limit", in which
    case the caller shows the rate-limit reply. *)
Theorem CreateAndEnrich_create_failed (input : CreateIdeaInput)
    (w0 w w1 : World) (o : option Idea) (err : error) :
  reaches_create s input w0 w ->
  IdeaRepository_Create input (emit (EvLog log_no_duplicates) w)
  = (Val (o, Some err), w1) ->
  let failure := fmt_Errorf_w "failed to create idea: " err EmptyString in
  CreateAndEnrich s input w0
  = (Val (None, None, Some failure), emit (EvLog (log_create_failed err)) w1) /\
  api_calls w1 = api_calls w /\
  (errors_As_DuplicateError err = None ->
   classify (None, None, Some failure)
   = Val (if strings_Contains (Error failure) "rate limit"
          then RateLimited else FatalError)).
Proof.
  intros Hreach Hcreate failure. split; [|split].
  - rewrite (reaches_create_run s _ _ _ Hreach).
    unfold CreateAndEnrich_create. run_log. run Hcreate. simpl. run_log.
    reflexivity.
  - revert Hcreate.
    unfold IdeaRepository_Create, IdeaRepository_GetByID, bind, sql_call, ret,
      get_db, put_db, time_Now. simpl.
    repeat (match goal with
            | |- context [match ?x with _ => _ end] => destruct x; simpl
            end);
      intros Heq; try discriminate;
      apply (f_equal snd) in Heq; simpl in Heq; subst w1; reflexivity.
  - intros Has. unfold classify. simpl. rewrite Has.
    destruct (strings_Contains _ _); reflexivity.
Qed.

(** X15. When every step succeeds the call returns the record as read back
    after the payload was saved: the same id, status [new], the title,
    category, priority and complexity of the payload, together with the
    payload and a nil error; the caller shows it as saved and enriched. *)
Theorem CreateAndEnrich_success (input : CreateIdeaInput)
    (w0 w w2 w3 : World) (idea : Idea) (e : EnrichedIdea) :
  reaches_create s input w0 w ->
  creates_then_enriches s input w idea (Some e, None) w2 ->
  IdeaRepository_UpdateEnriched (ID idea) e
    (emit (EvLog (log_enriched (ID idea))) w2) = (Val None, w3) ->
  sql_fault (env w3) (sql_calls w3) = None ->
  exists refreshed w',
    CreateAndEnrich s input w0 = (Val (Some refreshed, Some e, None), w') /\
    classify (Some refreshed, Some e, None) = Val SavedEnriched /\
    ID refreshed = ID idea /\ Status refreshed = StatusNew /\
    RawText refreshed = in_RawText input /\
    Title refreshed = e_Title e /\ Category refreshed = e_Category e /\
    Priority refreshed = e_Priority e /\ Complexity refreshed = e_Complexity e.
Proof.
  intros Hreach Hce Hupd Hok.
  pose proof Hce as (w1 & Hcreate & Henrich).
  apply EnrichIdea_frame in Henrich as (Hdb2 & _ & _).
  apply Create_success in Hcreate as (r & Hsel & Hidea & Hst & _ & Hraw & _ & _).
  assert (Hsel2 : select_by_id (ID idea)
                    (db (emit (EvLog (log_enriched (ID idea))) w2)) = Some r).
  { simpl. rewrite Hdb2. exact Hsel. }
  destruct (UpdateEnriched_saved _ _ _ _ Hupd)
    as (ej & af & _ & _ & Hdb3 & _ & _).
  pose proof (select_by_id_update (ID idea) ej (e_Title e) (e_Category e)
                (e_Priority e) (e_Complexity e) af
                (clock (env (emit (EvLog (log_enriched (ID idea))) w2))
                   (ticks (emit (EvLog (log_enriched (ID idea))) w2)))
                (db (emit (EvLog (log_enriched (ID idea))) w2)) r Hsel2)
    as Hnew.
  rewrite <- Hdb3 in Hnew.
  destruct (IdeaRepository_GetByID (ID idea) w3) as [res w'] eqn:Hrun.
  assert (Hget : exists refreshed,
             res = Val (Some refreshed, None) /\
             ID refreshed = c_id r /\ Title refreshed = e_Title e /\
             Category refreshed = e_Category e /\
             Priority refreshed = e_Priority e /\
             Complexity refreshed = e_Complexity e /\
             Status refreshed = c_status r /\
             RawText refreshed = c_raw_text r).
  { revert Hrun.
    unfold IdeaRepository_GetByID, bind, sql_call, ret, get_db. simpl.
    rewrite Hok. simpl. rewrite Hnew. intros [= <- _].
    eexists. split; [reflexivity|].
    unfold idea_of_row, ParseEnriched. simpl.
    destruct (is_empty ej); simpl; repeat split. }
  destruct Hget as (refreshed & -> & Hid & Hti & Hca & Hpr & Hco & Hstat & Hrw).
  assert (Hidr : ID idea = c_id r) by (rewrite Hidea; apply idea_of_row_ID).
  exists refreshed, w'. split.
  { rewrite (reaches_create_run s _ _ _ Hreach).
    rewrite (create_enrich_run s _ _ _ _ _ Hce). simpl.
    run Hupd. erewrite bind_run by reflexivity. run Hrun. reflexivity. }
  split; [reflexivity|]. repeat split; try assumption; congruence.
Qed.

End Intake_more.

(** The model is down when the duplicate check needs it. *)
Lemma CreateAndEnrich_check_failure_witness :
  let w0 := Mock.start [] [Mock.api_down]
              [Mock.row 1 "dark theme for the console" "new"] in
  exists w,
    CreateAndEnrich Mock.claude Mock.idea w0
    = CreateAndEnrich_create Mock.claude Mock.idea w /\
    db w = db w0.
Proof.
  intros w0.
  set (allow := RateLimiter_Allow (in_TelegramUserID Mock.idea)
                  (emit (EvLog (log_called Mock.idea)) w0)).
  set (fetch := IdeaRepository_ListSummaries (emit (EvLog log_checking) allow.2)).
  set (existing := [mkIdeaSummary 1 EmptyString "dark theme for the console"]).
  assert (Hallow : allow = (Val true, allow.2)) by evaluate.
  assert (Hfetch : fetch = (Val (existing, None), fetch.2)) by evaluate.
  assert (Hreply : api_reply (env fetch.2) (api_calls fetch.2)
                     (duplicateParams Mock.claude (in_RawText Mock.idea) existing)
                   = inr (errorString "connection refused")) by evaluate.
  destruct (CreateAndEnrich_check_failure Mock.claude Mock.idea w0 fetch.2
              existing _ (ex_intro _ allow.2 (conj Hallow Hfetch))
              ltac:(discriminate) Hreply)
    as (w & Hrun & _ & (Hdb & _) & _).
  exists w. split; assumption.
Defined.

(** The INSERT fails. *)
Lemma CreateAndEnrich_create_failed_witness :
  let w0 := Mock.start [2%nat] [] [] in
  (CreateAndEnrich Mock.claude Mock.idea w0).1
  = Val (None, None,
         Some (wrapError "failed to create idea: disk I/O error"
                 (errorString "disk I/O error"))) /\
  classify (None, None,
            Some (wrapError "failed to create idea: disk I/O error"
                    (errorString "disk I/O error"))) = Val FatalError.
Proof.
  intros w0.
  set (allow := RateLimiter_Allow (in_TelegramUserID Mock.idea)
                  (emit (EvLog (log_called Mock.idea)) w0)).
  set (fetch := IdeaRepository_ListSummaries (emit (EvLog log_checking) allow.2)).
  set (create := IdeaRepository_Create Mock.idea
                   (emit (EvLog log_no_duplicates) fetch.2)).
  set (err := errorString "disk I/O error").
  assert (Hallow : allow = (Val true, allow.2)) by evaluate.
  assert (Hfetch : fetch = (Val ([], None), fetch.2)) by evaluate.
  assert (Hcreate : create = (Val (None, Some err), create.2)) by evaluate.
  assert (Hreach : reaches_create Mock.claude Mock.idea w0 fetch.2)
    by (exists ([], None), fetch.2;
        split; [exists allow.2; split; assumption|];
        right; left; repeat split).
  destruct (CreateAndEnrich_create_failed Mock.claude Mock.idea w0 fetch.2
              create.2 None err Hreach Hcreate) as (Hrun & _ & Hclass).
  split; [rewrite Hrun; reflexivity|].
  exact (Hclass eq_refl).
Defined.

(** Every step succeeds. *)
Lemma CreateAndEnrich_success_witness :
  let w0 := Mock.start [] [Mock.text_reply "payload"] [] in
  exists refreshed w',
    CreateAndEnrich Mock.claude Mock.idea w0
    = (Val (Some refreshed, Some Mock.dark_mode, None), w') /\
    Title refreshed = "Dark mode toggle" /\ Status refreshed = StatusNew.
Proof.
  intros w0. first_submission w0.
  set (update := IdeaRepository_UpdateEnriched (ID Mock.first_record)
                   Mock.dark_mode
                   (emit (EvLog (log_enriched (ID Mock.first_record))) enrich.2)).
  assert (Henrich : enrich = (Val (Some Mock.dark_mode, None), enrich.2))
    by evaluate.
  assert (Hupdate : update = (Val None, update.2)) by evaluate.
  assert (Hok : sql_fault (env update.2) (sql_calls update.2) = None)
    by evaluate.
  destruct (CreateAndEnrich_success Mock.claude Mock.idea w0 fetch.2 enrich.2
              update.2 Mock.first_record Mock.dark_mode Hreach
              (ex_intro _ create.2 (conj Hcreate Henrich)) Hupdate Hok)
    as (refreshed & w' & Hrun & _ & _ & Hst & _ & Hti & _).
  exists refreshed, w'. split; [exact Hrun|]. split; assumption.
Defined.

(** ** What a call can return *)

Lemma Returns_ret {A} (Q : A -> Prop) a : Q a -> Returns Q (ret a).
Proof. intros HQ w. exists a, w. split; [reflexivity | exact HQ]. Qed.

Lemma Returns_bind {A B} (Q : A -> Prop) (R : B -> Prop) (m : M A)
    (k : A -> M B) :
  Returns Q m -> (forall a, Q a -> Returns R (k a)) -> Returns R (bind m k).
Proof.
  intros Hm Hk w. destruct (Hm w) as (a & w1 & Hrun & HQ).
  destruct (Hk a HQ w1) as (b & w2 & Hrun2 & HR).
  exists b, w2. split; [|exact HR]. rewrite (bind_run _ _ _ _ _ Hrun). exact Hrun2.
Qed.

Lemma Returns_then {A B} (R : B -> Prop) (m : M A) (k : A -> M B) :
  Returns (fun _ => True) m -> (forall a, Returns R (k a)) ->
  Returns R (bind m k).
Proof. intros Hm Hk. eapply Returns_bind; [exact Hm | auto]. Qed.

Lemma Returns_log_Printf line : Returns (fun _ => True) (log_Printf line).
Proof. intros w. eexists _, _. split; [reflexivity | exact I]. Qed.

Section Outcomes.
Context {json : JSON} {prompts : Prompts}.
Variable s : ClaudeService.

Lemma Returns_GetByID id :
  Returns (fun v => v.2 = None -> v.1 <> None) (IdeaRepository_GetByID id).
Proof.
  intros w. unfold IdeaRepository_GetByID, bind, sql_call, ret, get_db. simpl.
  destruct (sql_fault (env w) (sql_calls w)); simpl;
    [|destruct (select_by_id id (db w)); simpl];
    eexists _, _; (split; [reflexivity|]); simpl; congruence.
Qed.

Lemma Returns_Create input :
  Returns (fun v => v.2 = None -> v.1 <> None) (IdeaRepository_Create input).
Proof.
  intros w. unfold IdeaRepository_Create, bind, sql_call, ret, get_db, put_db,
    time_Now. simpl.
  destruct (sql_fault (env w) (sql_calls w)); simpl;
    [eexists _, _; split; [reflexivity | simpl; congruence]|].
  destruct (sql_fault (env w) (S (sql_calls w))); simpl;
    [eexists _, _; split; [reflexivity | simpl; congruence]|].
  apply Returns_GetByID.
Qed.

Lemma Returns_EnrichIdea rawIdea username :
  Returns (fun v => v.2 = None -> v.1 <> None)
    (ClaudeService_EnrichIdea s rawIdea username).
Proof.
  intros w. unfold ClaudeService_EnrichIdea, bind, client_Messages_New, ret.
  simpl. destruct (api_reply _ _ _) as [m | err]; simpl;
    [destruct (is_empty _); [|destruct (Unmarshal_EnrichedIdea _ _).2]|];
    eexists _, _; (split; [reflexivity|]); simpl; congruence.
Qed.

Lemma Returns_UpdateEnriched id e :
  Returns (fun _ => True) (IdeaRepository_UpdateEnriched id e).
Proof.
  intros w. unfold IdeaRepository_UpdateEnriched, bind, sql_call, ret, get_db,
    put_db, time_Now.
  destruct (Marshal_EnrichedIdea e); [|eexists _, _; split; [reflexivity | exact I]].
  destruct (Marshal_strings _); [|eexists _, _; split; [reflexivity | exact I]].
  simpl. destruct (sql_fault (env w) (sql_calls w)); simpl;
    eexists _, _; (split; [reflexivity | exact I]).
Qed.

Lemma Returns_CheckDuplicate newIdea existing :
  Returns (fun _ => True) (ClaudeService_CheckDuplicate s newIdea existing).
Proof.
  intros w. unfold ClaudeService_CheckDuplicate.
  destruct existing; [eexists _, _; split; [reflexivity | exact I]|].
  unfold bind, client_Messages_New, ret. simpl.
  destruct (api_reply _ _ _) as [m | err]; simpl;
    [destruct (is_empty _); [|destruct (Unmarshal_DuplicateResult _ _).2]|];
    eexists _, _; (split; [reflexivity | exact I]).
Qed.

Lemma Returns_ListSummaries :
  Returns (fun _ => True) IdeaRepository_ListSummaries.
Proof.
  intros w. destruct (IdeaRepository_ListSummaries w) as [r w'] eqn:Hrun.
  destruct (ListSummaries_frame _ _ _ Hrun) as (_ & _ & v & ->).
  exists v, w'. split; [reflexivity | exact I].
Qed.

Lemma well_formed_error err : well_formed (None, None, Some err).
Proof. split; simpl; [reflexivity | discriminate]. Qed.

Lemma Returns_create input :
  Returns well_formed (CreateAndEnrich_create s input).
Proof.
  unfold CreateAndEnrich_create.
  apply Returns_then; [apply Returns_log_Printf | intros _].
  eapply Returns_bind; [apply Returns_Create | intros [o [err|]] Hc]; simpl.
  { apply Returns_then; [apply Returns_log_Printf | intros _].
    apply Returns_ret, well_formed_error. }
  destruct o as [idea|]; [|exfalso; apply (Hc eq_refl); reflexivity].
  apply Returns_then; [apply Returns_log_Printf | intros _].
  apply Returns_then; [apply Returns_log_Printf | intros _].
  eapply Returns_bind; [apply Returns_EnrichIdea | intros [oe [err|]] He]; simpl.
  { apply Returns_then; [apply Returns_log_Printf | intros _].
    apply Returns_ret. split; simpl; [congruence | discriminate]. }
  apply Returns_then; [apply Returns_log_Printf | intros _].
  destruct oe as [e|]; [|exfalso; apply (He eq_refl); reflexivity].
  apply Returns_then; [apply Returns_UpdateEnriched | intros saved].
  apply Returns_then.
  { destruct saved; [apply Returns_log_Printf | apply Returns_ret; exact I]. }
  intros _. eapply Returns_bind; [apply Returns_GetByID | intros refreshed _].
  apply Returns_ret. split; simpl; [congruence | discriminate].
Qed.

(** X16. [CreateAndEnrich] returns one of three shapes: an error with a
    nil idea and a nil payload, an idea without payload and without error,
    or a payload without error.  Its only panic is the division by zero of
    the rate limiter, for a submitter without a bucket under a per-user
    quota of zero. *)
Theorem CreateAndEnrich_outcomes (input : CreateIdeaInput) (w0 w' : World)
    (r : Res Outcome) :
  CreateAndEnrich s input w0 = (r, w') ->
  (exists o, r = Val o /\ well_formed o) \/
  (r = Panic divide_by_zero /\ perUser (rateLimiter w0) = 0 /\
   userLimits (rateLimiter w0) !! in_TelegramUserID input = None).
Proof.
  unfold CreateAndEnrich. intros Hrun.
  apply bind_inv in Hrun as [(a & w1 & H1 & Hrun) | (msg & [=] & _)].
  injection H1 as _ <-.
  apply bind_inv in Hrun as [(allowed & w2 & Hallow & Hrun) | (msg & Hpanic & ->)].
  - left. revert Hrun.
    match goal with |- ?m w2 = _ -> _ => assert (Returns well_formed m) as HR end.
    { destruct allowed; simpl.
      - apply Returns_then; [apply Returns_log_Printf | intros _].
        eapply Returns_then; [apply Returns_ListSummaries | intros [existing [err|]]];
          simpl.
        { apply Returns_then; [apply Returns_log_Printf | intros _].
          apply Returns_create. }
        destruct (0 <? length existing)%nat; [|apply Returns_create].
        eapply Returns_then; [apply Returns_CheckDuplicate | intros [d [err|]]];
          simpl.
        { apply Returns_then; [apply Returns_log_Printf | intros _].
          apply Returns_create. }
        destruct d as [d|]; [|apply Returns_create].
        destruct (IsDuplicate d); [|apply Returns_create].
        apply Returns_then; [apply Returns_log_Printf | intros _].
        apply Returns_ret, well_formed_error.
      - apply Returns_then; [apply Returns_log_Printf | intros _].
        apply Returns_ret, well_formed_error. }
    destruct (HR w2) as (o & w3 & Ho & Hwf). rewrite Ho. intros [= <- _]. eauto.
  - right. set (we := emit (EvLog (log_called input)) w0) in *.
    destruct (rate.available (clock (env we) (ticks we))
                (globalLimit (rateLimiter we))) eqn:Hav.
    + destruct (userLimits (rateLimiter we) !! in_TelegramUserID input)
        as [u|] eqn:Hu.
      * rewrite (Allow_known_user _ _ u Hav Hu) in Hpanic. discriminate.
      * destruct (decide (perUser (rateLimiter we) = 0)) as [Hp|Hp].
        -- rewrite (Allow_new_user_panic _ _ Hav Hu Hp) in Hpanic.
           injection Hpanic as <- _. repeat split; assumption.
        -- rewrite (Allow_new_user _ _ Hav Hu Hp) in Hpanic. discriminate.
    + rewrite (Allow_global_empty _ _ Hav) in Hpanic. discriminate.
Qed.

End Outcomes.

Lemma CreateAndEnrich_outcomes_witness :
  let w0 := Mock.world (Mock.environment [] []) (Mock.limiter 0 50) [] in
  (CreateAndEnrich Mock.claude Mock.idea w0).1 = Panic divide_by_zero.
Proof.
  intros w0.
  destruct (CreateAndEnrich_outcomes Mock.claude Mock.idea w0 _ _
              (surjective_pairing _)) as [(o & Ho & _) | (Hp & _)];
    [|exact Hp].
  exfalso. revert Ho. vm_compute. discriminate.
Defined.

(** ** How often the model is called *)

Lemma api_within_weaken {A} (n n' : nat) (m : M A) :
  (n <= n')%nat -> api_within n m -> api_within n' m.
Proof. intros Hle Hm w r w' Hrun. specialize (Hm w r w' Hrun). lia. Qed.

Lemma api_within_ret {A} (a : A) : api_within 0 (ret a).
Proof. intros w r w' [= _ <-]. lia. Qed.

Lemma api_within_panic {A} msg : api_within 0 (@panic A msg).
Proof. intros w r w' [= _ <-]. lia. Qed.

Lemma api_within_bind {A B} (a b : nat) (m : M A) (k : A -> M B) :
  api_within a m -> (forall x, api_within b (k x)) ->
  api_within (a + b) (bind m k).
Proof.
  intros Hm Hk w r w' Hrun.
  apply bind_inv in Hrun as [(x & w1 & H1 & H2) | (msg & H1 & _)].
  - specialize (Hm _ _ _ H1). specialize (Hk _ _ _ _ H2). lia.
  - specialize (Hm _ _ _ H1). lia.
Qed.

Lemma api_within_quiet {A B} (n : nat) (m : M A) (k : A -> M B) :
  api_within 0 m -> (forall x, api_within n (k x)) -> api_within n (bind m k).
Proof. intros Hm Hk. apply (api_within_bind 0 n); assumption. Qed.

Lemma api_within_log_Printf line : api_within 0 (log_Printf line).
Proof. intros w r w' [= _ <-]. simpl. lia. Qed.

Lemma api_within_time_Now : api_within 0 time_Now.
Proof. intros w r w' [= _ <-]. simpl. lia. Qed.

Lemma api_within_sql_call c : api_within 0 (sql_call c).
Proof. intros w r w' [= _ <-]. simpl. lia. Qed.

Lemma api_within_get_db : api_within 0 get_db.
Proof. intros w r w' [= _ <-]. lia. Qed.

Lemma api_within_put_db d : api_within 0 (put_db d).
Proof. intros w r w' [= _ <-]. simpl. lia. Qed.

Lemma api_within_client_Messages_New p : api_within 1 (client_Messages_New p).
Proof. intros w r w' [= _ <-]. simpl. lia. Qed.

Ltac quiet :=
  repeat first
    [ apply api_within_ret | apply api_within_panic | apply api_within_log_Printf
    | apply api_within_time_Now | apply api_within_sql_call
    | apply api_within_get_db | apply api_within_put_db
    | apply api_within_quiet; [|intros ?]
    | match goal with
      | |- api_within _ (match ?x with _ => _ end) => destruct x
      | |- api_within _ (let _ := _ in _) => cbv zeta
      end ].

Section Model_calls.
Context {json : JSON} {prompts : Prompts}.
Variable s : ClaudeService.

Lemma api_within_GetByID id : api_within 0 (IdeaRepository_GetByID id).
Proof. unfold IdeaRepository_GetByID. quiet. Qed.

Lemma api_within_UpdateEnriched id e :
  api_within 0 (IdeaRepository_UpdateEnriched id e).
Proof. unfold IdeaRepository_UpdateEnriched. quiet. Qed.

Lemma api_within_Create input : api_within 0 (IdeaRepository_Create input).
Proof. unfold IdeaRepository_Create. quiet. Qed.

Lemma api_within_ListSummaries : api_within 0 IdeaRepository_ListSummaries.
Proof.
  intros w r w' Hrun. apply ListSummaries_frame in Hrun as (_ & Hapi & _). lia.
Qed.

Lemma api_within_Allow userID : api_within 0 (RateLimiter_Allow userID).
Proof.
  intros w r w' Hrun. apply Allow_frame in Hrun as (n & rl & ->). simpl. lia.
Qed.

Lemma api_within_EnrichIdea rawIdea username :
  api_within 1 (ClaudeService_EnrichIdea s rawIdea username).
Proof.
  unfold ClaudeService_EnrichIdea.
  apply (api_within_bind 1 0); [apply api_within_client_Messages_New|].
  intros x. quiet.
Qed.

Lemma api_within_CheckDuplicate newIdea existing :
  api_within 1 (ClaudeService_CheckDuplicate s newIdea existing).
Proof.
  unfold ClaudeService_CheckDuplicate. destruct existing.
  - apply (api_within_weaken 0); [lia | apply api_within_ret].
  - apply (api_within_bind 1 0); [apply api_within_client_Messages_New|].
    intros x. quiet.
Qed.

Lemma api_within_create input :
  api_within 1 (CreateAndEnrich_create s input).
Proof.
  unfold CreateAndEnrich_create.
  apply api_within_quiet; [apply api_within_log_Printf | intros _].
  apply api_within_quiet; [apply api_within_Create | intros [o [err|]]]; simpl.
  { apply (api_within_weaken 0); [lia | quiet]. }
  destruct o as [idea|]; [|apply (api_within_weaken 0); [lia | quiet]].
  apply api_within_quiet; [apply api_within_log_Printf | intros _].
  apply api_within_quiet; [apply api_within_log_Printf | intros _].
  apply (api_within_bind 1 0); [apply api_within_EnrichIdea|].
  intros [oe [err|]]; simpl; [quiet|].
  apply api_within_quiet; [apply api_within_log_Printf | intros _].
  destruct oe as [e|]; [|quiet].
  apply api_within_quiet; [apply api_within_UpdateEnriched | intros saved].
  apply api_within_quiet; [destruct saved; quiet | intros _].
  apply api_within_quiet; [apply api_within_GetByID | intros refreshed].
  quiet.
Qed.

(** X17. One call of [CreateAndEnrich] calls the language model at most
    twice, once for the duplicate check and once for the enrichment,
    whatever the collaborators answer; the creation stage alone calls it at
    most once. *)
Theorem CreateAndEnrich_model_calls (input : CreateIdeaInput) :
  api_within 2 (CreateAndEnrich s input) /\
  api_within 1 (CreateAndEnrich_create s input).
Proof.
  split; [|apply api_within_create].
  unfold CreateAndEnrich.
  apply api_within_quiet; [apply api_within_log_Printf | intros _].
  apply api_within_quiet; [apply api_within_Allow | intros allowed].
  destruct allowed; simpl; [|apply (api_within_weaken 0); [lia | quiet]].
  apply api_within_quiet; [apply api_within_log_Printf | intros _].
  apply api_within_quiet;
    [apply api_within_ListSummaries | intros [existing [err|]]]; simpl.
  { apply api_within_quiet; [apply api_within_log_Printf | intros _].
    apply (api_within_weaken 1); [lia | apply api_within_create]. }
  destruct (0 <? length existing)%nat;
    [|apply (api_within_weaken 1); [lia | apply api_within_create]].
  apply (api_within_bind 1 1); [apply api_within_CheckDuplicate|].
  intros [d [err|]]; simpl.
  { apply api_within_quiet; [apply api_within_log_Printf | intros _].
    apply api_within_create. }
  destruct d as [d|]; [|apply api_within_create].
  destruct (IsDuplicate d); [|apply api_within_create].
  apply (api_within_weaken 0); [lia | quiet].
Qed.

End Model_calls.

(** ** Escaping text for Telegram *)

Lemma append_cons (x : Ascii.ascii) (a b : string) :
  String x a +:+ b = String x (a +:+ b).
Proof. reflexivity. Qed.

Lemma append_nil (b : string) : EmptyString +:+ b = b.
Proof. reflexivity. Qed.

Ltac str := simpl; rewrite ?append_cons, ?append_nil.

Lemma append_assoc_s (a b c : string) : (a +:+ b) +:+ c = a +:+ (b +:+ c).
Proof. induction a as [|x a IH]; str; [reflexivity | f_equal; exact IH]. Qed.

Lemma append_empty_r (a : string) : a +:+ EmptyString = a.
Proof. induction a as [|x a IH]; str; [reflexivity | f_equal; exact IH]. Qed.

Lemma escape_once_nil s : escape_once [] s = s.
Proof. induction s as [|c s IH]; simpl; [reflexivity | rewrite IH; reflexivity]. Qed.

Local Opaque backslash.

(** Replacing one more byte in a text escaped for [done]. *)
Lemma replace_escaped (done : list Ascii.ascii) (c : Ascii.ascii) (s : string) :
  existsb (Ascii.eqb c) done = false ->
  done = [] \/ c <> backslash ->
  replace_byte c (String backslash (String c EmptyString)) (escape_once done s)
  = escape_once (done ++ [c]) s.
Proof.
  intros Hnew Hbs. induction s as [|x s IH]; simpl; [reflexivity|].
  rewrite existsb_app. simpl. rewrite orb_false_r.
  destruct (existsb (Ascii.eqb x) done) eqn:Hx; simpl.
  - assert (Hc : c <> backslash).
    { destruct Hbs as [-> | Hc]; [discriminate | exact Hc]. }
    assert (Hxc : x <> c).
    { intros ->. rewrite Hnew in Hx. discriminate. }
    apply Ascii.eqb_neq in Hxc. rewrite Hxc.
    assert (Hb : Ascii.eqb backslash c = false).
    { apply Ascii.eqb_neq. congruence. }
    rewrite Hb, IH. reflexivity.
  - destruct (Ascii.eqb x c) eqn:Hxc; simpl.
    + apply Ascii.eqb_eq in Hxc. subst x. str. rewrite IH. reflexivity.
    + rewrite IH. reflexivity.
Qed.

Lemma escape_each_sequential (todo : list Ascii.ascii) :
  forall (done : list Ascii.ascii) (s : string),
    sequential done todo = true ->
    escape_each todo (escape_once done s) = escape_once (done ++ todo) s.
Proof.
  induction todo as [|c todo IH]; intros done s Hseq; simpl.
  - rewrite app_nil_r. reflexivity.
  - simpl in Hseq.
    apply andb_true_iff in Hseq as [Hseq Hrest].
    apply andb_true_iff in Hseq as [Hnew Hbs].
    apply negb_true_iff in Hnew.
    unfold escape_each in *. simpl.
    rewrite replace_escaped; [|exact Hnew|].
    + rewrite IH by exact Hrest. rewrite <- app_assoc. reflexivity.
    + destruct done; [left; reflexivity|].
      right. apply negb_true_iff in Hbs. apply Ascii.eqb_neq in Hbs. exact Hbs.
Qed.

(** X18. The loops of [escapeMarkdown] and [escapeMarkdownV2], which
    replace one special character after the other, escape in one pass: in
    the result every special byte of the text carries exactly one
    backslash and nothing else changed.  For [escapeMarkdown] this rests on
    the backslash being replaced first; [escapeMarkdownV2] leaves the
    backslashes of the text as they are. *)
Theorem escapeMarkdown_one_pass (text : string) :
  escapeMarkdown text = escape_once (backslash :: specialChars_V2) text /\
  escapeMarkdownV2 text = escape_once specialChars_V2 text.
Proof.
  split.
  - unfold escapeMarkdown.
    rewrite <- (escape_once_nil text) at 1.
    apply (escape_each_sequential _ [] text). vm_compute. reflexivity.
  - unfold escapeMarkdownV2.
    rewrite <- (escape_once_nil text) at 1.
    apply (escape_each_sequential _ [] text). vm_compute. reflexivity.
Qed.

Example escapeMarkdown_sample :
  escapeMarkdown "v1.2 (beta)_x" = String.concat (String backslash EmptyString)
                                     ["v1"; ".2 "; "(beta"; ")"; "_x"] /\
  escapeMarkdownV2 (String backslash "n") = String backslash "n".
Proof. vm_compute. split; reflexivity. Qed.

Lemma replace_byte_empty c s :
  replace_byte c EmptyString s = without [c] s.
Proof.
  induction s as [|x s IH]; simpl; [reflexivity|].
  rewrite orb_false_r. destruct (Ascii.eqb x c); str; rewrite IH; reflexivity.
Qed.

Lemma without_without l1 l2 s :
  without l2 (without l1 s) = without (l1 ++ l2) s.
Proof.
  induction s as [|x s IH]; simpl; [reflexivity|].
  rewrite existsb_app.
  destruct (existsb (Ascii.eqb x) l1); simpl; [exact IH|].
  destruct (existsb (Ascii.eqb x) l2); rewrite IH; reflexivity.
Qed.

Lemma without_escape_once removed special s :
  existsb (Ascii.eqb backslash) removed = true ->
  without removed (escape_once special s) = without removed s.
Proof.
  intros Hb. induction s as [|x s IH]; simpl; [reflexivity|].
  destruct (existsb (Ascii.eqb x) special); simpl.
  - rewrite Hb. destruct (existsb (Ascii.eqb x) removed); rewrite IH; reflexivity.
  - destruct (existsb (Ascii.eqb x) removed); rewrite IH; reflexivity.
Qed.

(** X19. [stripMarkdown] drops every backslash, star, underscore and
    backquote and keeps the rest; applied to a text escaped by
    [escapeMarkdownV2] it gives what it gives on the text itself, so the
    plain-text fallback also loses the stars, underscores and backquotes
    the user wrote. *)
Theorem stripMarkdown_of_escaped (text : string) :
  let dropped := String.list_ascii_of_string
                   (String backslash "*_`") in
  stripMarkdown text = without dropped text /\
  stripMarkdown (escapeMarkdownV2 text) = stripMarkdown text.
Proof.
  intros dropped.
  assert (Hstrip : forall s, stripMarkdown s = without dropped s).
  { intros s. unfold stripMarkdown. rewrite !replace_byte_empty.
    rewrite !without_without. reflexivity. }
  split; [apply Hstrip|].
  rewrite !Hstrip.
  assert (Hesc : escapeMarkdownV2 text = escape_once specialChars_V2 text).
  { unfold escapeMarkdownV2. rewrite <- (escape_once_nil text) at 1.
    apply (escape_each_sequential _ [] text). vm_compute. reflexivity. }
  rewrite Hesc. apply without_escape_once. reflexivity.
Qed.

Example stripMarkdown_sample :
  stripMarkdown (escapeMarkdownV2 "snake_case: 2*3") = "snakecase: 23".
Proof. vm_compute. reflexivity. Qed.

(** X20. [AffectedComponentsStr] joins the components with ", ": it is
    [strings.Join(components, ", ")], the empty string for no component. *)
Theorem AffectedComponentsStr_join (i : Idea) :
  AffectedComponentsStr i = String.concat ", " (AffectedComponents i).
Proof.
  unfold AffectedComponentsStr.
  destruct (AffectedComponents i) as [|x l]; [reflexivity|]. simpl.
  assert (Hloop : forall l n acc,
            (fold_left
               (fun (st : nat * string) r =>
                  (S st.1,
                   (if (0 <? st.1)%nat then st.2 +:+ ", " else st.2) +:+ r))
               l (S n, acc)).2
            = acc +:+ fold_right (fun r t => ", " +:+ r +:+ t) EmptyString l).
  { clear. induction l as [|r l IH]; intros n acc; simpl.
    - rewrite append_empty_r. reflexivity.
    - rewrite IH, !append_assoc_s. reflexivity. }
  rewrite Hloop, append_nil. clear Hloop. revert x.
  induction l as [|r l IH]; intros x; simpl.
  - apply append_empty_r.
  - f_equal. f_equal. apply IH.
Qed.

(** ** The queries of [List] and [Count] *)

Lemma placeholders_app (a b : string) :
  placeholders (a +:+ b) = (placeholders a + placeholders b)%nat.
Proof.
  induction a as [|x a IH]; str; [reflexivity|]. rewrite IH. lia.
Qed.

Lemma placeholders_marks {A} (values : list A) :
  placeholders (strings_Join (map (fun _ => "?") values) ",") = length values.
Proof.
  unfold strings_Join. induction values as [|v values IH]; [reflexivity|].
  destruct values as [|v' values]; [reflexivity|].
  change (placeholders ("?" +:+ "," +:+
                        String.concat "," (map (fun _ => "?") (v' :: values)))
          = S (length (v' :: values))).
  rewrite !placeholders_app, IH. reflexivity.
Qed.

Lemma placeholders_Join (conditions : list string) :
  placeholders (strings_Join conditions " AND ")
  = list_sum (map placeholders conditions).
Proof.
  unfold strings_Join. induction conditions as [|c conditions IH]; [reflexivity|].
  destruct conditions as [|c' conditions]; [simpl; lia|].
  change (placeholders (c +:+ " AND " +:+ String.concat " AND " (c' :: conditions))
          = (placeholders c + list_sum (map placeholders (c' :: conditions)))%nat).
  rewrite !placeholders_app, IH. reflexivity.
Qed.

Lemma add_condition_balanced column values st :
  placeholders column = 0%nat ->
  list_sum (map placeholders st.1) = length st.2 ->
  list_sum (map placeholders (add_condition column values st).1)
  = length (add_condition column values st).2.
Proof.
  intros Hcol Hst. unfold add_condition.
  destruct (0 <? length values)%nat; [|exact Hst]. simpl.
  rewrite map_app, list_sum_app, length_app, length_map. simpl.
  rewrite !placeholders_app, placeholders_marks, Hcol, Hst. simpl. lia.
Qed.

Lemma add_where_placeholders query conditions :
  placeholders (add_where query conditions)
  = (placeholders query + list_sum (map placeholders conditions))%nat.
Proof.
  unfold add_where. destruct conditions as [|c conditions]; [simpl; lia|].
  change (0 <? length (c :: conditions))%nat with true. cbv iota.
  rewrite !placeholders_app, placeholders_Join. reflexivity.
Qed.

(** X21. The query [List] builds holds exactly one placeholder for each
    argument it passes, whatever the filter, and so does the query of
    [Count]: the values of the filter only ever travel as arguments. *)
Theorem List_query_placeholders (filter : IdeaFilter) :
  placeholders (List_query filter).1 = length (List_query filter).2 /\
  placeholders (Count_query filter).1 = length (Count_query filter).2.
Proof.
  assert (H0 : list_sum (map placeholders (([] : list string), ([] : list SqlArg)).1)
               = length (([] : list string), ([] : list SqlArg)).2)
    by reflexivity.
  pose proof (add_condition_balanced "status" (f_Status filter) _ eq_refl H0)
    as H1.
  pose proof (add_condition_balanced "category" (f_Category filter) _ eq_refl H1)
    as H2.
  pose proof (add_condition_balanced "priority" (f_Priority filter) _ eq_refl H2)
    as H3.
  split.
  - unfold List_query.
    set (st := add_condition "priority" (f_Priority filter) _) in *.
    destruct (0 <? f_Limit filter); destruct (0 <? f_Offset filter); simpl;
      rewrite ?length_app, !placeholders_app, add_where_placeholders, H3;
      simpl; lia.
  - unfold Count_query.
    set (st := add_condition "status" (f_Status filter) _) in *. simpl.
    rewrite add_where_placeholders, H1. reflexivity.
Qed.

Example List_query_sample :
  (List_query (mkIdeaFilter ["new"; "accepted"] [] ["high"] 20 0)).2
  = [ArgText "new"; ArgText "accepted"; ArgText "high"; ArgInt 20] /\
  placeholders
    (List_query (mkIdeaFilter ["new"; "accepted"] [] ["high"] 20 0)).1 = 4%nat.
Proof. vm_compute. split; reflexivity. Qed.
